(** * Scatter worker: copy generation, back-link and output classification

    A shallow embedding of [processJob] and [processExistingCopies] of the
    scatter worker (the variant with [mix_entity_class] and
    [use_existing_copies]), and the properties its specification states of
    them, each proved of the embedding or refuted on it and proved as
    amended.

    The worker is asynchronous TypeScript.  It is modelled by explicit state
    passing: the state is the trace of requests sent to the record store and
    of job-log entries; a computation returns a value or throws.  Everything
    the worker receives from outside (the store's responses, the clock, the
    order in which concurrent requests complete, the engine's conversions
    between strings and numbers) is gathered in one record, [Env], over which
    the theorems quantify.

    The API client is taken to resolve to [{ data, error }], the shape the
    worker destructures; of a log entry the level and the message are kept,
    not the metadata. *)

From Stdlib Require Import ZArith QArith Qround Qminmax Lia Ascii.
From stdpp Require Import base strings gmap list list_numbers sorting pretty.
From Equations Require Import Equations.

Local Open Scope string_scope.
Local Open Scope Z_scope.
Local Open Scope list_scope.

(** ** JavaScript values

    Property bags and errors arrive as JSON.  The values modelled are the
    JSON scalars, [undefined] and the plain objects.

    A number is a rational: every finite double is one, and the worker's own
    arithmetic ([i + 1], [batchStart + BATCH_SIZE]) is on whole numbers, where
    it is exact.  [NaN] appears only as the result [None] of [ToNumber].  The
    infinities are left out: the loop of [processJob] over a [copy_count] of
    [Infinity] does not end.

    Of an object the JSON text is kept, which is all that the worker can
    show of it.  Arrays are not modelled. *)

Inductive jsval : Type :=
| JUndefined
| JNull
| JBool (b : bool)
| JNum (q : Q)
| JStr (s : string)
| JObj (json : string).

(** A whole number. *)
Abbreviation JInt z := (JNum (inject_Z z)).

(** [ToBoolean]: what [||], [&&], [!] and [if] test. *)
Definition truthy (v : jsval) : bool :=
  match v with
  | JUndefined | JNull => false
  | JBool b => b
  | JNum q => negb (Qeq_bool q 0)
  | JStr s => negb (String.eqb s "")
  | JObj _ => true
  end.

(** [a || b] *)
Definition js_or (a b : jsval) : jsval := if truthy a then a else b.

(** [v === true] *)
Definition strict_eq_true (v : jsval) : bool :=
  match v with
  | JBool true => true
  | _ => false
  end.

(** [ToString], as a template literal applies it.  How a number prints
    ([Number::toString]) is the engine's business and is taken from the
    environment. *)
Definition ToString (NumberToString : Q → string) (v : jsval) : string :=
  match v with
  | JUndefined => "undefined"
  | JNull => "null"
  | JBool true => "true"
  | JBool false => "false"
  | JNum q => NumberToString q
  | JStr s => s
  | JObj _ => "[object Object]"
  end.

(** [ToNumber], as [<] and [Math.min] apply it; [None] is [NaN].  Parsing a
    string is the engine's business and is taken from the environment. *)
Definition ToNumber (StringToNumber : string → option Q) (v : jsval) : option Q :=
  match v with
  | JUndefined => None
  | JNull => Some 0%Q
  | JBool true => Some 1%Q
  | JBool false => Some 0%Q
  | JNum q => Some q
  | JStr s => StringToNumber s
  | JObj _ => None
  end.

(** [a < b] on numbers *)
#[global] Instance number_lt_dec (a b : Q) : Decision (a < b)%Q.
Proof.
  destruct (Qlt_le_dec a b) as [H|H]; [left; exact H|right].
  intros H'. exact (Qlt_not_le _ _ H' H).
Defined.

(** The values that [i] takes in [for (let i = from; i < to; i++)], where
    [from] is a whole number and [to] any number: the whole numbers from
    [from] on that are below [to]. *)
Definition for_range (from : Z) (to : Q) : list Z :=
  seqZ from (Qceiling to - from).

(** [QuoteJSONString]: the characters of a string as they stand between the
    quotes of its JSON text. *)
Definition hex_digit (n : N) : ascii :=
  if (n <? 10)%N then ascii_of_N (48 + n) else ascii_of_N (87 + n).

Definition JSON_escape (c : ascii) : string :=
  let n := N_of_ascii c in
  if (n =? 34)%N then String "\" (String "034" EmptyString)
  else if (n =? 92)%N then "\\"
  else if (n =? 8)%N then "\b"
  else if (n =? 9)%N then "\t"
  else if (n =? 10)%N then "\n"
  else if (n =? 12)%N then "\f"
  else if (n =? 13)%N then "\r"
  else if (n <? 32)%N then
    "\u00" +:+ String (hex_digit (n / 16)) (String (hex_digit (n mod 16)) EmptyString)
  else String c EmptyString.

Fixpoint JSON_escape_all (s : string) : string :=
  match s with
  | EmptyString => EmptyString
  | String c s' => JSON_escape c +:+ JSON_escape_all s'
  end.

Definition JSON_quote (s : string) : string :=
  String "034" (JSON_escape_all s +:+ String "034" EmptyString).

(** [JSON.stringify(v)] inside a template literal: [JSON.stringify] gives
    [undefined] for [undefined], which the template prints as such. *)
Definition JSON_stringify (NumberToString : Q → string) (v : jsval) : string :=
  match v with
  | JUndefined => "undefined"
  | JNull => "null"
  | JBool true => "true"
  | JBool false => "false"
  | JNum q => NumberToString q
  | JStr s => JSON_quote s
  | JObj json => json
  end.

(** A property bag, [Record<string, unknown>].  Reading a missing key gives
    [undefined]. *)
Definition get (props : gmap string jsval) (k : string) : jsval :=
  default JUndefined (props !! k).

(** ** Data model *)

Record Relationship : Type := {
  predicate : string;
  peer : string;
  peer_type : string;
  peer_label : jsval;
}.

(** The target as [job.fetchTarget()] returns it (properties only). *)
Record Target : Type := {
  target_id : string;
  target_type : string;
  target_properties : gmap string jsval;
}.

(** An entity as [GET /entities/{id}] returns it; [relationships] is
    optional in the response. *)
Record Entity : Type := {
  id : string;
  type : string;
  properties : gmap string jsval;
  relationships : option (list Relationship);
}.

(** The body of [POST /entities]. *)
Record EntityBody : Type := {
  body_type : string;
  body_collection : string;
  body_properties : gmap string jsval;
  body_relationships : list Relationship;
}.

(** The transient descriptor of a copy; an absent [entity_class] is
    [JUndefined]. *)
Record CopyResult : Type := {
  copy_id : string;
  entity_class : jsval;
}.

(** [Output]: an entity id, or an item with a routing property. *)
Inductive Output : Type :=
| OutputId (entity_id : string)
| OutputItem (entity_id : string) (entity_class : jsval).

Definition output_id (o : Output) : string :=
  match o with
  | OutputId i => i
  | OutputItem i _ => i
  end.

(** The fields of the [KladosJob] that the worker reads. *)
Record Job : Type := {
  target_entity : string;
  target_collection : string;
  agentId : string;
  isWorkflow : bool;
}.

(** ** The outside world *)

(** What the API client resolves to: [{ data, error }].  [data] is an object
    when it is there; [error] is any value, [undefined] when the response
    has none.  The worker tests both for truthiness. *)
Record Response (A : Type) : Type := {
  data : option A;
  error : jsval;
}.
Arguments data {A} _.
Arguments error {A} _.
Arguments Build_Response {A} _ _.

Inductive Result (A : Type) : Type :=
| Ok (a : A)
| Throw (msg : string).
Arguments Ok {A} _.
Arguments Throw {A} _.

Record Env : Type := {
  (** [job.fetchTarget()] *)
  fetchTarget : Result Target;
  (** the response to the creation request for copy index [i] ([data.id]) *)
  POST_entities : Z → Response string;
  (** the response of [GET /entities/{id}/tip] ([data.cid]) *)
  GET_tip : Response string;
  (** the [error] of the conditional [PUT /entities/{id}] *)
  PUT_entity : jsval;
  (** the response to the re-fetch of the target with its relationships *)
  GET_target : Response Entity;
  (** the response to the fetch in slot [i] of the copy with the given id *)
  GET_copy : Z → string → Response Entity;
  (** when the request for index [i] completes, relative to the others of
      its batch *)
  latency : Z → nat;
  (** [new Date().toISOString()] while the request for index [i] is built *)
  now : Z → string;
  (** the engine's [StringToNumber] *)
  StringToNumber : string → option Q;
  (** the engine's [Number::toString] *)
  NumberToString : Q → string;
}.

(** The requests the worker sends to the record store. *)
Inductive Call : Type :=
| POST (body : EntityBody)
| GET_entity (id : string)
| GET_entity_tip (id : string)
| PUT (id : string) (expect_tip : string) (relationships_add : list Relationship).

Inductive Level : Type := info | success.

Record World : Type := {
  calls : list Call;
  logs : list (Level * string);
}.

Definition start : World := {| calls := []; logs := [] |}.

(** ** Computations: state passing with exceptions *)

Definition M (A : Type) : Type := World → Result A * World.

#[global] Instance M_ret : MRet M := λ A a w, (Ok a, w).

#[global] Instance M_bind : MBind M := λ A B k m w,
  match m w with
  | (Ok a, w') => k a w'
  | (Throw e, w') => (Throw e, w')
  end.

Definition throw {A} (msg : string) : M A := λ w, (Throw msg, w).

Definition sent (cs : list Call) (w : World) : World :=
  {| calls := calls w ++ cs; logs := logs w |}.

Definition logged (ls : list (Level * string)) (w : World) : World :=
  {| calls := calls w; logs := logs w ++ ls |}.

Definition send (c : Call) : M unit := λ w, (Ok tt, sent [c] w).

Definition log (l : Level) (message : string) : M unit :=
  λ w, (Ok tt, logged [(l, message)] w).

Definition lift {A} (r : Result A) : M A := λ w, (r, w).

(** ** [Promise.all]

    The promises of a batch settle one by one, in the order of their
    latencies.  A fulfilled promise stores its value at its own index of the
    values array; the first promise to reject rejects the whole. *)

Fixpoint settle {A} (outcomes : list (Result A)) (order : list nat)
    (values : list (option A)) : Result (list (option A)) :=
  match order with
  | [] => Ok values
  | k :: order' =>
      match outcomes !! k with
      | Some (Ok v) => settle outcomes order' (<[k := Some v]> values)
      | Some (Throw e) => Throw e
      | None => settle outcomes order' values
      end
  end.

Definition sooner (lat : nat → nat) (i j : nat) : Prop := (lat i ≤ lat j)%nat.

#[global] Instance sooner_dec lat i j : Decision (sooner lat i j).
Proof. unfold sooner. apply _. Defined.

Definition completion_order (lat : nat → nat) (n : nat) : list nat :=
  merge_sort (sooner lat) (seq 0 n).

Definition Promise_all {A} (lat : nat → nat) (outcomes : list (Result A)) :
    Result (list A) :=
  let n := length outcomes in
  match settle outcomes (completion_order lat n) (replicate n None) with
  | Ok values => Ok (omap (λ v, v) values)
  | Throw e => Throw e
  end.

(** The invariant of [settle] while all promises fulfil: every slot of the
    values array written so far holds the value of its own promise. *)
Definition written {A} (vs : list A) (values : list (option A)) : Prop :=
  length values = length vs ∧
  ∀ k, (k < length vs)%nat → values !! k = Some None ∨ values !! k = Some (vs !! k).

(** ** The worker *)

(** Default number of copies to create *)
Definition DEFAULT_COPY_COUNT : Z := 3.

(** Batch size for concurrent entity creation/fetching *)
Definition BATCH_SIZE : Z := 20.

(** [`${target.properties.label || 'Entity'} - Copy ${i + 1}`] *)
Definition copyLabel (env : Env) (target : Target) (i : Z) : string :=
  ToString (NumberToString env)
    (js_or (get (target_properties target) "label") (JStr "Entity"))
    +:+ " - Copy " +:+ pretty (i + 1).

(** [mixEntityClass ? (i % 2 === 0 ? 'canonical' : 'mention') : undefined] *)
Definition entityClass (mixEntityClass : bool) (i : Z) : jsval :=
  if mixEntityClass
  then (if Z.rem i 2 =? 0 then JStr "canonical" else JStr "mention")%Z
  else JUndefined.

(** [...(entityClass && { entity_class: entityClass })] *)
Definition spread_entity_class (entityClass : jsval)
    (props : gmap string jsval) : gmap string jsval :=
  if truthy entityClass then <["entity_class" := entityClass]> props else props.

(** The body of the creation request for copy index [i]. *)
Definition copyBody (job : Job) (env : Env) (target : Target)
    (mixEntityClass : bool) (numCopies : jsval) (i : Z) : EntityBody :=
  {| body_type := target_type target;
     body_collection := target_collection job;
     body_properties :=
       spread_entity_class (entityClass mixEntityClass i)
         (<["created_at" := JStr (now env i)]>
         (<["created_by" := JStr (agentId job)]>
         (<["source_entity" := JStr (target_id target)]>
         (<["copy_total" := numCopies]>
         (<["copy_index" := JInt i]>
         (<["label" := JStr (copyLabel env target i)]>
            (target_properties target)))))));
     body_relationships :=
       [ {| predicate := "copy_of";
            peer := target_id target;
            peer_type := target_type target;
            peer_label := get (target_properties target) "label" |} ] |}.

(** What the promise of the creation request for index [i] settles to:
    [if (error || !data) throw ...; return { id: data.id, entity_class }]. *)
Definition created (env : Env) (mixEntityClass : bool) (i : Z) : Result CopyResult :=
  let r := POST_entities env i in
  match truthy (error r), data r with
  | false, Some data_id =>
      Ok {| copy_id := data_id; entity_class := entityClass mixEntityClass i |}
  | _, _ =>
      Throw ("Failed to create copy " +:+ pretty (i + 1) +:+ ": "
               +:+ JSON_stringify (NumberToString env) (error r))
  end.

(** Sending a request starts it at once and leaves a promise. *)
Definition issue {A} (request : Z → Call) (outcome : Z → Result A) (i : Z) :
    M (Result A) :=
  send (request i);; mret (outcome i).

(** The batch loop, which the worker writes twice (once around the creation
    requests, once around the fetches of existing copies):

    [for (let batchStart = 0; batchStart < n; batchStart += BATCH_SIZE)]

    with [batchEnd = Math.min(batchStart + BATCH_SIZE, n)], the inner loop
    [for (let i = batchStart; i < batchEnd; i++)] that pushes one promise
    per index, [await Promise.all(batchPromises)],
    [copies.push(...batchResults)] and the log entry of the batch.  The
    bound [n] is a number, whole or not. *)
Equations? batches (request : Z → Call) (outcome : Z → Result CopyResult)
    (lat : Z → nat) (verb : string) (n : Q)
    (batchStart : Z) (copies : list CopyResult) : M (list CopyResult)
    by wf (Z.to_nat (Qceiling n - batchStart)) lt :=
  batches request outcome lat verb n batchStart copies
    with decide (inject_Z batchStart < n)%Q := {
    | left _ =>
        let batchEnd := Qmin (inject_Z (batchStart + BATCH_SIZE)) n in
        batchPromises ←
          mapM (issue request outcome) (for_range batchStart batchEnd);
        batchResults ←
          lift (Promise_all (λ k, lat (batchStart + Z.of_nat k)%Z) batchPromises);
        log info (verb +:+ " batch " +:+ pretty (batchStart / BATCH_SIZE + 1)%Z);;
        batches request outcome lat verb n (batchStart + BATCH_SIZE)
          (copies ++ batchResults)
    | right _ => mret copies }.
Proof.
  assert (batchStart < Qceiling n)%Z.
  { rewrite Zlt_Qlt. eapply Qlt_le_trans; [eassumption|apply Qle_ceiling]. }
  unfold BATCH_SIZE. lia.
Qed.

(** Lines 159-218 of [processJob]: create the copies in parallel batches.
    [batchStart < numCopies] and [Math.min(..., numCopies)] read [numCopies]
    as a number; against [NaN] the comparison is false and the loop body
    never runs.  [copy_total] receives [numCopies] as it is. *)
Definition createCopies (job : Job) (env : Env) (target : Target)
    (mixEntityClass : bool) (numCopies : jsval) : M (list CopyResult) :=
  match ToNumber (StringToNumber env) numCopies with
  | Some n =>
      batches (λ i, POST (copyBody job env target mixEntityClass numCopies i))
        (created env mixEntityClass) (latency env) "Created" n 0 []
  | None => mret []
  end.

(** Lines 220-246 of [processJob]: update the original entity to point to
    all copies, guarded by its current tip.  The guards are
    [if (tipError || !tipData)] and [if (updateError)]. *)
Definition backLink (env : Env) (target : Target) (copies : list CopyResult) :
    M unit :=
  send (GET_entity_tip (target_id target));;
  match truthy (error (GET_tip env)), data (GET_tip env) with
  | false, Some cid =>
      send (PUT (target_id target) cid
              (imap (λ i copy,
                 {| predicate := "has_copy";
                    peer := copy_id copy;
                    peer_type := target_type target;
                    peer_label := JStr (copyLabel env target (Z.of_nat i)) |})
                 copies));;
      if truthy (PUT_entity env)
      then log info "Failed to add has_copy relationships to original"
      else mret tt
  | _, _ => log info "Failed to get tip for original entity"
  end.

(** The callback of [copies.map] that builds the outputs. *)
Definition toOutput (copy : CopyResult) : Output :=
  if truthy (entity_class copy)
  then OutputItem (copy_id copy) (entity_class copy)
  else OutputId (copy_id copy).

(** [copyRelationships[i].peer]; the loop only reads inside the array. *)
Definition peer_at (copyRelationships : list Relationship) (i : Z) : string :=
  from_option peer "" (copyRelationships !! Z.to_nat i).

(** What the promise of the fetch in slot [i] settles to:
    [if (error || !data) throw ...; return { id: data.id, entity_class }]. *)
Definition fetched (env : Env) (mixEntityClass : bool)
    (copyRelationships : list Relationship) (i : Z) : Result CopyResult :=
  let r := GET_copy env i (peer_at copyRelationships i) in
  match truthy (error r), data r with
  | false, Some d =>
      Ok {| copy_id := id d;
            entity_class :=
              if mixEntityClass then get (properties d) "entity_class"
              else JUndefined |}
  | _, _ =>
      Throw ("Failed to fetch copy " +:+ peer_at copyRelationships i +:+ ": "
               +:+ JSON_stringify (NumberToString env) (error r))
  end.

(** [entityWithRels.relationships?.filter(r => r.predicate === 'has_copy') || []] *)
Definition has_copy_relationships (entityWithRels : Entity) : list Relationship :=
  default [] (filter (λ r, predicate r = "has_copy") <$> relationships entityWithRels).

(** The guard of the re-fetch is [if (fetchError || !entityWithRels)]. *)
Definition processExistingCopies (job : Job) (env : Env) (target : Target)
    (mixEntityClass : bool) : M (list Output) :=
  send (GET_entity (target_id target));;
  match truthy (error (GET_target env)), data (GET_target env) with
  | false, Some entityWithRels =>
      let copyRelationships := has_copy_relationships entityWithRels in
      if decide (length copyRelationships = 0%nat) then
        log info "No existing copies found";;
        mret []
      else
        log info "Using existing copies";;
        copies ←
          batches (λ i, GET_entity (peer_at copyRelationships i))
            (fetched env mixEntityClass copyRelationships) (latency env)
            "Fetched" (inject_Z (Z.of_nat (length copyRelationships))) 0 [];
        log success "Scatter complete (using existing copies)";;
        mret (toOutput <$> copies)
  | _, _ =>
      throw ("Failed to fetch target entity with relationships: "
               +:+ target_id target)
  end.

(** Line 147: [(target.properties.copy_count as number) || DEFAULT_COPY_COUNT].
    The cast is erased at run time. *)
Definition numCopies_of (target : Target) : jsval :=
  js_or (get (target_properties target) "copy_count") (JInt DEFAULT_COPY_COUNT).

Definition processJob (job : Job) (env : Env) : M (list Output) :=
  target ← lift (fetchTarget env);
  let useExistingCopies :=
    strict_eq_true (get (target_properties target) "use_existing_copies") in
  let mixEntityClass :=
    strict_eq_true (get (target_properties target) "mix_entity_class") in
  log info "Scatter worker starting";;
  if useExistingCopies then
    processExistingCopies job env target mixEntityClass
  else
    let numCopies := numCopies_of target in
    log info "Fetched target entity";;
    copies ← createCopies job env target mixEntityClass numCopies;
    backLink env target copies;;
    log success "Scatter complete";;
    mret (toOutput <$> copies).

(** ** Vocabulary of the statements *)

(** A response that carries data and no error. *)
Definition fulfilled {A} (a : A) : Response A :=
  {| data := Some a; error := JUndefined |}.

(** A response that carries an error and no data. *)
Definition failed {A} (e : jsval) : Response A :=
  {| data := None; error := e |}.

(** [error || !data], the test of every response that carries data. *)
Definition is_failed {A} (r : Response A) : bool :=
  truthy (error r) || (if data r is Some _ then false else true).

(** The number of times that the body of
    [for (let i = 0; i < numCopies; i++)] runs: none against [NaN]. *)
Definition iterations (env : Env) (numCopies : jsval) : Z :=
  match ToNumber (StringToNumber env) numCopies with
  | Some n => Z.max 0 (Qceiling n)
  | None => 0
  end.

(** The log entry of a failed back-link, if it failed. *)
Definition backLink_log (tip : Response string) (put : jsval) :
    list (Level * string) :=
  if is_failed tip then [(info, "Failed to get tip for original entity")]
  else if truthy put
  then [(info, "Failed to add has_copy relationships to original")]
  else [].

(** The same environment with other answers to the back-link requests. *)
Definition set_backlink (tip : Response string) (put : jsval) (env : Env) : Env :=
  {| fetchTarget := fetchTarget env;
     POST_entities := POST_entities env;
     GET_tip := tip;
     PUT_entity := put;
     GET_target := GET_target env;
     GET_copy := GET_copy env;
     latency := latency env;
     now := now env;
     StringToNumber := StringToNumber env;
     NumberToString := NumberToString env |}.

(** The same environment with another completion order. *)
Definition set_latency (lat : Z → nat) (env : Env) : Env :=
  {| fetchTarget := fetchTarget env;
     POST_entities := POST_entities env;
     GET_tip := GET_tip env;
     PUT_entity := PUT_entity env;
     GET_target := GET_target env;
     GET_copy := GET_copy env;
     latency := lat;
     now := now env;
     StringToNumber := StringToNumber env;
     NumberToString := NumberToString env |}.

(** The same environment with the target's [copy_count] set to [v]. *)
Definition set_copy_count (v : jsval) (env : Env) : Env :=
  {| fetchTarget :=
       match fetchTarget env with
       | Ok target =>
           Ok {| target_id := target_id target;
                 target_type := target_type target;
                 target_properties := <["copy_count" := v]> (target_properties target) |}
       | Throw e => Throw e
       end;
     POST_entities := POST_entities env;
     GET_tip := GET_tip env;
     PUT_entity := PUT_entity env;
     GET_target := GET_target env;
     GET_copy := GET_copy env;
     latency := latency env;
     now := now env;
     StringToNumber := StringToNumber env;
     NumberToString := NumberToString env |}.

(** The bodies of the creation requests of a trace, in the order sent. *)
Definition posted (cs : list Call) : list EntityBody :=
  omap (λ c, match c with POST body => Some body | _ => None end) cs.

(** The requests that read an entity. *)
Definition is_GET_entity (c : Call) : Prop :=
  match c with GET_entity _ => True | _ => False end.

(** The value a promise fulfils with (a placeholder when it rejects). *)
Definition value_of (outcome : Z → Result CopyResult) (i : Z) : CopyResult :=
  match outcome i with
  | Ok copy => copy
  | Throw _ => {| copy_id := ""; entity_class := JUndefined |}
  end.

(** The flags as [processJob] reads them. *)
Definition useExistingCopies_of (target : Target) : bool :=
  strict_eq_true (get (target_properties target) "use_existing_copies").

Definition mixEntityClass_of (target : Target) : bool :=
  strict_eq_true (get (target_properties target) "mix_entity_class").

(** The promises whose values the job classifies, by index: the creations in
    generation mode, the fetches of the copies in existing-copies mode. *)
Definition promise_of (env : Env) (target : Target) : Z → Result CopyResult :=
  if useExistingCopies_of target
  then fetched env (mixEntityClass_of target)
         (from_option has_copy_relationships [] (data (GET_target env)))
  else created env (mixEntityClass_of target).

(** How many of them there are. *)
Definition promises_of (env : Env) (target : Target) : Z :=
  if useExistingCopies_of target
  then Z.of_nat (length (from_option has_copy_relationships []
                           (data (GET_target env))))
  else iterations env (numCopies_of target).

(** ** Concrete jobs, for the examples *)

Definition ex_job : Job :=
  {| target_entity := "T"; target_collection := "C"; agentId := "scatter";
     isWorkflow := false |}.

Definition ex_target (props : gmap string jsval) : Target :=
  {| target_id := "T"; target_type := "test_entity"; target_properties := props |}.

(** The store names the copy with index [i] ["c<i>"]. *)
Definition ex_ids (i : Z) : string := "c" +:+ pretty i.

(** The target re-fetched with its relationships: three copies made
    beforehand, and a relationship of another kind between them. *)
Definition ex_relationships : list Relationship :=
  [ {| predicate := "has_copy"; peer := "p0"; peer_type := "test_entity";
       peer_label := JStr "Copy 0" |};
    {| predicate := "in_collection"; peer := "C"; peer_type := "collection";
       peer_label := JUndefined |};
    {| predicate := "has_copy"; peer := "p1"; peer_type := "test_entity";
       peer_label := JStr "Copy 1" |};
    {| predicate := "has_copy"; peer := "p2"; peer_type := "test_entity";
       peer_label := JStr "Copy 2" |} ].

(** The copy ["p1"] was stored with an empty [entity_class]. *)
Definition ex_copy (peer : string) : Entity :=
  {| id := peer; type := "test_entity";
     properties :=
       {[ "entity_class" :=
            JStr (if String.eqb peer "p0" then "canonical"
                  else if String.eqb peer "p1" then "" else "mention") ]};
     relationships := None |}.

(** A target that asks for its existing copies, with routing classes. *)
Definition ex_existing_props : gmap string jsval :=
  {[ "use_existing_copies" := JBool true;
     "mix_entity_class" := JBool true;
     "copy_count" := JInt 7 ]}.

Definition ex_entity (props : gmap string jsval) : Entity :=
  {| id := "T"; type := "test_entity"; properties := props;
     relationships := Some ex_relationships |}.

(** The conversions of the examples: no string is taken for a number, and a
    whole number prints in decimal (the examples print no other number). *)
Definition ex_StringToNumber (s : string) : option Q := None.

Definition ex_NumberToString (q : Q) : string := pretty (Qfloor q).

(** A store where every request succeeds; of the requests of a batch, the
    last sent completes first. *)
Definition ex_env (props : gmap string jsval) : Env :=
  {| fetchTarget := Ok (ex_target props);
     POST_entities := λ i, fulfilled (ex_ids i);
     GET_tip := fulfilled "tip-1";
     PUT_entity := JUndefined;
     GET_target := fulfilled (ex_entity props);
     GET_copy := λ _ peer, fulfilled (ex_copy peer);
     latency := λ i, Z.to_nat (1000 - i);
     now := λ _, "2025-01-01T00:00:00.000Z";
     StringToNumber := ex_StringToNumber;
     NumberToString := ex_NumberToString |}.

(** The same store, except that it refuses to create the copy with index
    [25], and to hand out the target with its relationships. *)
Definition ex_env_failing (props : gmap string jsval) : Env :=
  {| fetchTarget := Ok (ex_target props);
     POST_entities := λ i,
       if i =? 25 then failed (JObj "{}") else fulfilled (ex_ids i);
     GET_tip := fulfilled "tip-1";
     PUT_entity := JUndefined;
     GET_target := failed (JObj "{}");
     GET_copy := λ _ peer, fulfilled (ex_copy peer);
     latency := λ i, Z.to_nat (1000 - i);
     now := λ _, "2025-01-01T00:00:00.000Z";
     StringToNumber := ex_StringToNumber;
     NumberToString := ex_NumberToString |}.
(** ** More vocabulary: the trace, the outputs, the log *)

(** The keys that [processJob] sets on a copy, whatever the target has
    under them. *)
Definition stamped_keys : list string :=
  ["label"; "copy_index"; "copy_total"; "source_entity"; "created_by";
   "created_at"; "entity_class"].


Definition is_bare (o : Output) : bool :=
  match o with OutputId _ => true | OutputItem _ _ => false end.

Definition has_class (class : string) (o : Output) : bool :=
  match o with
  | OutputItem _ (JStr c) => String.eqb c class
  | _ => false
  end.

(** The log entries of the batches of a loop over [[0, n)], the first of
    which starts at [batchStart]: one per batch, numbered from
    [batchStart / BATCH_SIZE + 1]. *)
Definition batch_log (verb : string) (n batchStart : Z) : list (Level * string) :=
  (λ b, (info, verb +:+ " batch " +:+ pretty (batchStart / BATCH_SIZE + b + 1)))
    <$> seqZ 0 ((n - batchStart + BATCH_SIZE - 1) / BATCH_SIZE).

(** A store in which the copy ["p1"] cannot be fetched. *)
Definition ex_env_missing_copy (props : gmap string jsval) : Env :=
  {| fetchTarget := Ok (ex_target props);
     POST_entities := λ i, fulfilled (ex_ids i);
     GET_tip := fulfilled "tip-1";
     PUT_entity := JUndefined;
     GET_target := fulfilled (ex_entity props);
     GET_copy := λ _ peer,
       if String.eqb peer "p1" then failed (JObj "{}")
       else fulfilled (ex_copy peer);
     latency := λ i, Z.to_nat (1000 - i);
     now := λ _, "2025-01-01T00:00:00.000Z";
     StringToNumber := ex_StringToNumber;
     NumberToString := ex_NumberToString |}.


(** * The earlier scatter workers

    The repository keeps three earlier versions of the scatter worker's
    [processJob].  Each is embedded in a module of its own, over the same
    trace and the same environment. *)

(** ** The batched worker without routing
    (the last [job.ts] of [src/unnamed/part_000]) *)
Module Plain.

Definition copyBody (job : Job) (env : Env) (target : Target)
    (numCopies : jsval) (i : Z) : EntityBody :=
  {| body_type := target_type target;
     body_collection := target_collection job;
     body_properties :=
       <["created_at" := JStr (now env i)]>
       (<["created_by" := JStr (agentId job)]>
       (<["source_entity" := JStr (target_id target)]>
       (<["copy_total" := numCopies]>
       (<["copy_index" := JInt i]>
       (<["label" := JStr (copyLabel env target i)]>
          (target_properties target))))));
     body_relationships :=
       [ {| predicate := "copy_of";
            peer := target_id target;
            peer_type := target_type target;
            peer_label := get (target_properties target) "label" |} ] |}.

(** What the promise of the creation request for index [i] settles to:
    [data.id]. *)
Definition created (env : Env) (i : Z) : Result string :=
  let r := POST_entities env i in
  match truthy (error r), data r with
  | false, Some data_id => Ok data_id
  | _, _ =>
      Throw ("Failed to create copy " +:+ pretty (i + 1) +:+ ": "
               +:+ JSON_stringify (NumberToString env) (error r))
  end.

(** The batch loop of this version, over ids. *)
Equations? batches (request : Z → Call) (outcome : Z → Result string)
    (lat : Z → nat) (n : Q)
    (batchStart : Z) (copies : list string) : M (list string)
    by wf (Z.to_nat (Qceiling n - batchStart)) lt :=
  batches request outcome lat n batchStart copies
    with decide (inject_Z batchStart < n)%Q := {
    | left _ =>
        let batchEnd := Qmin (inject_Z (batchStart + BATCH_SIZE)) n in
        batchPromises ←
          mapM (issue request outcome) (for_range batchStart batchEnd);
        batchResults ←
          lift (Promise_all (λ k, lat (batchStart + Z.of_nat k)%Z) batchPromises);
        log info ("Created batch " +:+ pretty (batchStart / BATCH_SIZE + 1)%Z);;
        batches request outcome lat n (batchStart + BATCH_SIZE)
          (copies ++ batchResults)
    | right _ => mret copies }.
Proof.
  assert (batchStart < Qceiling n)%Z.
  { rewrite Zlt_Qlt. eapply Qlt_le_trans; [eassumption|apply Qle_ceiling]. }
  unfold BATCH_SIZE. lia.
Qed.

Definition createCopies (job : Job) (env : Env) (target : Target)
    (numCopies : jsval) : M (list string) :=
  match ToNumber (StringToNumber env) numCopies with
  | Some n =>
      batches (λ i, POST (copyBody job env target numCopies i))
        (created env) (latency env) n 0 []
  | None => mret []
  end.

Definition backLink (env : Env) (target : Target) (copies : list string) :
    M unit :=
  send (GET_entity_tip (target_id target));;
  match truthy (error (GET_tip env)), data (GET_tip env) with
  | false, Some cid =>
      send (PUT (target_id target) cid
              (imap (λ i copyId,
                 {| predicate := "has_copy";
                    peer := copyId;
                    peer_type := target_type target;
                    peer_label := JStr (copyLabel env target (Z.of_nat i)) |})
                 copies));;
      if truthy (PUT_entity env)
      then log info "Failed to add has_copy relationships to original"
      else mret tt
  | _, _ => log info "Failed to get tip for original entity"
  end.

Definition processJob (job : Job) (env : Env) : M (list string) :=
  target ← lift (fetchTarget env);
  let numCopies := numCopies_of target in
  log info "Scatter worker starting";;
  log info "Fetched target entity";;
  copies ← createCopies job env target numCopies;
  backLink env target copies;;
  log success "Scatter complete";;
  mret copies.

End Plain.

(** ** The sequential workers: three copies, one request at a time *)

(** Number of copies to create *)
Definition NUM_COPIES : Z := 3.

(** The loop of the two sequential versions,

    [for (let i = 0; i < NUM_COPIES; i++)],

    over the indices still to come: each creation is awaited, and checked,
    before the next one is sent. *)
Fixpoint sequential (request : Z → Call) (outcome : Z → Result string)
    (indices : list Z) (copies : list string) : M (list string) :=
  match indices with
  | [] => mret copies
  | i :: indices' =>
      send (request i);;
      data_id ← lift (outcome i);
      log info ("Created copy " +:+ pretty (i + 1) +:+ "/" +:+ pretty NUM_COPIES);;
      sequential request outcome indices' (copies ++ [data_id])
  end.

(** The worker of [src/kladoi/scatter-worker/src/job.ts]: copies with a
    [copy_of] relationship, and the back-link. *)
Module Sequential.

Definition copyBody (job : Job) (env : Env) (target : Target) (i : Z) : EntityBody :=
  {| body_type := target_type target;
     body_collection := target_collection job;
     body_properties :=
       <["created_at" := JStr (now env i)]>
       (<["created_by" := JStr (agentId job)]>
       (<["copy_total" := JInt NUM_COPIES]>
       (<["copy_index" := JInt i]>
       (<["label" := JStr (copyLabel env target i)]>
          (target_properties target)))));
     body_relationships :=
       [ {| predicate := "copy_of";
            peer := target_id target;
            peer_type := target_type target;
            peer_label := get (target_properties target) "label" |} ] |}.

Definition processJob (job : Job) (env : Env) : M (list string) :=
  log info "Scatter worker starting";;
  target ← lift (fetchTarget env);
  log info "Fetched target entity";;
  copies ←
    sequential (λ i, POST (copyBody job env target i)) (Plain.created env)
      (seqZ 0 NUM_COPIES) [];
  Plain.backLink env target copies;;
  log success "Scatter complete";;
  mret copies.

End Sequential.

(** The worker of the second [job.ts] of [src/unnamed/part_000]: copies
    that name their source in a property, no relationship (the request has
    no [relationships] field), no back-link. *)
Module Detached.

Definition copyBody (job : Job) (env : Env) (target : Target) (i : Z) : EntityBody :=
  {| body_type := target_type target;
     body_collection := target_collection job;
     body_properties :=
       <["created_at" := JStr (now env i)]>
       (<["created_by" := JStr (agentId job)]>
       (<["source_entity" := JStr (target_id target)]>
       (<["copy_total" := JInt NUM_COPIES]>
       (<["copy_index" := JInt i]>
       (<["label" := JStr (copyLabel env target i)]>
          (target_properties target))))));
     body_relationships := [] |}.

Definition processJob (job : Job) (env : Env) : M (list string) :=
  log info "Scatter worker starting";;
  target ← lift (fetchTarget env);
  log info "Fetched target entity";;
  copies ←
    sequential (λ i, POST (copyBody job env target i)) (Plain.created env)
      (seqZ 0 NUM_COPIES) [];
  log success "Scatter complete";;
  mret copies.

End Detached.

(** * Proofs *)

(** * The stamp workers

    The repository's other worker marks the entity it is given.  Both
    versions read the entity's tip and write the entity back under that tip;
    here a failed update is fatal.  The first version
    ([src/stamp-worker/src/job.ts]) writes three properties over the
    entity's own; the second ([src/kladoi/stamp-worker/src/job.ts]) keeps
    the stamps of the jobs before it in an array. *)
Module Stamp.

(** A property value, with the arrays that the second version looks for and
    the objects that it writes; anything else is an [Atom]. *)
Inductive json : Type :=
| Atom (v : jsval)
| Arr (items : list json)
| Rec (fields : list (string * json)).

Record Target : Type := {
  target_id : string;
  target_type : string;
  target_properties : gmap string json;
}.

(** [job.config.agentId] and [job.request.job_id] *)
Record Job : Type := {
  agentId : string;
  job_id : string;
}.

Record Env : Type := {
  (** [job.fetchTarget()] *)
  fetchTarget : Result Target;
  (** the response of [GET /entities/{id}/tip] ([data.cid]) *)
  GET_tip : Response string;
  (** the [error] of the conditional [PUT /entities/{id}] *)
  PUT_entity : jsval;
  (** [new Date().toISOString()] *)
  now : string;
  (** the engine's [Number::toString] *)
  NumberToString : Q → string;
}.

Inductive Call : Type :=
| GET_entity_tip (id : string)
| PUT (id : string) (expect_tip : string) (properties : gmap string json).

Record World : Type := {
  calls : list Call;
  logs : list (Level * string);
}.

Definition start : World := {| calls := []; logs := [] |}.

Definition M (A : Type) : Type := World → Result A * World.

#[global] Instance M_ret : MRet M := λ A a w, (Ok a, w).

#[global] Instance M_bind : MBind M := λ A B k m w,
  match m w with
  | (Ok a, w') => k a w'
  | (Throw e, w') => (Throw e, w')
  end.

Definition throw {A} (msg : string) : M A := λ w, (Throw msg, w).

Definition send (c : Call) : M unit :=
  λ w, (Ok tt, {| calls := calls w ++ [c]; logs := logs w |}).

Definition log (l : Level) (message : string) : M unit :=
  λ w, (Ok tt, {| calls := calls w; logs := logs w ++ [(l, message)] |}).

Definition lift {A} (r : Result A) : M A := λ w, (r, w).

(** The steps that the two versions share: the opening log entries, the tip
    read, the conditional update with the properties to write, and the
    closing entries. *)
Definition stamp (properties : Target → gmap string json) (env : Env) :
    M (list string) :=
  log info "Stamp worker starting";;
  target ← lift (fetchTarget env);
  log info "Fetched target entity";;
  send (GET_entity_tip (target_id target));;
  match truthy (error (GET_tip env)), data (GET_tip env) with
  | false, Some cid =>
      send (PUT (target_id target) cid (properties target));;
      if truthy (PUT_entity env)
      then throw ("Failed to stamp entity: "
                    +:+ JSON_stringify (NumberToString env) (PUT_entity env))
      else
        log info "Entity stamped successfully";;
        log success "Job completed";;
        mret [target_id target]
  | _, _ => throw ("Failed to get entity tip: " +:+ target_id target)
  end.

(** [{ ...target.properties, ...stampProperties }] *)
Definition stamped (job : Job) (env : Env) (target : Target) : gmap string json :=
  <["stamp_message" := Atom (JStr "This worker was here!")]>
  (<["stamped_by" := Atom (JStr (agentId job))]>
  (<["stamped_at" := Atom (JStr (now env))]>
     (target_properties target))).

Definition processJob (job : Job) (env : Env) : M (list string) :=
  stamp (stamped job env) env.

(** The entity as the store has it once the update is applied. *)
Definition updated (properties : gmap string json) (target : Target) : Target :=
  {| target_id := target_id target;
     target_type := target_type target;
     target_properties := properties |}.

(** A field of a stamp. *)
Definition field (name : string) (stamp : json) : option json :=
  match stamp with
  | Rec fields => (λ found, snd (snd found)) <$> list_find (λ f, fst f = name) fields
  | _ => None
  end.

End Stamp.

(** The version that accumulates. *)
Module StampChain.

(** [Array.isArray(target.properties.stamps) ? target.properties.stamps : []] *)
Definition existingStamps (target : Stamp.Target) : list Stamp.json :=
  match Stamp.target_properties target !! "stamps" with
  | Some (Stamp.Arr items) => items
  | _ => []
  end.

Definition newStamp (job : Stamp.Job) (env : Stamp.Env)
    (existingStamps : list Stamp.json) : Stamp.json :=
  let stamp_number := Z.of_nat (length existingStamps) + 1 in
  Stamp.Rec
    [ ("stamped_at", Stamp.Atom (JStr (Stamp.now env)));
      ("stamped_by", Stamp.Atom (JStr (Stamp.agentId job)));
      ("stamp_number", Stamp.Atom (JInt stamp_number));
      ("stamp_message",
       Stamp.Atom (JStr ("Stamp #" +:+ pretty stamp_number
                           +:+ " - This worker was here!")));
      ("job_id", Stamp.Atom (JStr (Stamp.job_id job))) ].

(** [{ ...target.properties, stamps, stamp_count: stamps.length }] *)
Definition stamped (job : Stamp.Job) (env : Stamp.Env) (target : Stamp.Target) :
    gmap string Stamp.json :=
  let existingStamps := existingStamps target in
  let stamps := existingStamps ++ [newStamp job env existingStamps] in
  <["stamp_count" := Stamp.Atom (JInt (Z.of_nat (length stamps)))]>
  (<["stamps" := Stamp.Arr stamps]>
     (Stamp.target_properties target)).

Definition processJob (job : Stamp.Job) (env : Stamp.Env) : Stamp.M (list string) :=
  Stamp.stamp (stamped job env) env.

(** A chain of stamping jobs on one entity: each job finds the entity as
    the job before it wrote it. *)
Fixpoint chain (steps : list (Stamp.Job * Stamp.Env)) (target : Stamp.Target) :
    Stamp.Target :=
  match steps with
  | [] => target
  | (job, env) :: steps' =>
      chain steps' (Stamp.updated (stamped job env target) target)
  end.

End StampChain.

(** A stamping job, an entity and a store, for the examples. *)
Definition ex_stamp_job (agent : string) : Stamp.Job :=
  {| Stamp.agentId := agent; Stamp.job_id := "job-" +:+ agent |}.

Definition ex_stamp_target (props : gmap string Stamp.json) : Stamp.Target :=
  {| Stamp.target_id := "E"; Stamp.target_type := "test_entity";
     Stamp.target_properties := props |}.

Definition ex_stamp_env (props : gmap string Stamp.json) (put : jsval) : Stamp.Env :=
  {| Stamp.fetchTarget := Ok (ex_stamp_target props);
     Stamp.GET_tip := fulfilled "tip-1";
     Stamp.PUT_entity := put;
     Stamp.now := "2025-01-01T00:00:00.000Z";
     Stamp.NumberToString := ex_NumberToString |}.
(** * Proofs *)

(** ** The trace *)

Lemma sent_nil w : sent [] w = w.
Proof. destruct w. unfold sent. simpl. by rewrite app_nil_r. Qed.

Lemma sent_sent cs1 cs2 w : sent cs2 (sent cs1 w) = sent (cs1 ++ cs2) w.
Proof. unfold sent. simpl. by rewrite app_assoc. Qed.

Lemma logged_logged ls1 ls2 w : logged ls2 (logged ls1 w) = logged (ls1 ++ ls2) w.
Proof. unfold logged. simpl. by rewrite app_assoc. Qed.

Lemma sent_logged cs ls w : sent cs (logged ls w) = logged ls (sent cs w).
Proof. reflexivity. Qed.

Lemma posted_POST bodies : posted (POST <$> bodies) = bodies.
Proof.
  induction bodies as [|b bodies IH]; [done|]. unfold posted. csimpl. by f_equal.
Qed.

Lemma posted_app cs1 cs2 : posted (cs1 ++ cs2) = posted cs1 ++ posted cs2.
Proof. unfold posted. apply omap_app. Qed.

Lemma posted_GET_entity cs : Forall is_GET_entity cs → posted cs = [].
Proof.
  induction 1 as [|c cs Hc _ IH]; [done|].
  destruct c; first [done | unfold posted in *; csimpl; exact IH].
Qed.

(** ** [Promise.all] assembles the values by index *)

Section promise_all.
Context {A : Type}.
Implicit Types (vs : list A) (values : list (option A)) (order : list nat).

Lemma settle_fulfilled vs order values :
  written vs values →
  ∃ values',
    settle (Ok <$> vs) order values = Ok values' ∧
    written vs values' ∧
    ∀ k, (k < length vs)%nat →
      k ∈ order ∨ values !! k = Some (vs !! k) → values' !! k = Some (vs !! k).
Proof.
  revert values. induction order as [|k0 order IH]; intros values Hw; simpl.
  - exists values. split_and!; [done..|].
    intros k _ [Hk|Hk]; [by apply elem_of_nil in Hk|done].
  - rewrite list_lookup_fmap. destruct (vs !! k0) as [v|] eqn:Hk0; simpl.
    + assert (k0 < length vs)%nat as Hlt by (by eapply lookup_lt_Some).
      destruct Hw as [Hlen Hw].
      destruct (IH (<[k0 := Some v]> values)) as (values' & Hs & Hw' & Hfull).
      { split; [by rewrite length_insert|]. intros k Hk.
        destruct (decide (k = k0)) as [->|Hne].
        - right. rewrite list_lookup_insert_eq by lia. by rewrite Hk0.
        - rewrite list_lookup_insert_ne by done. by apply Hw. }
      exists values'. split_and!; [done..|].
      intros k Hk Hin. apply Hfull; [done|].
      destruct (decide (k = k0)) as [->|Hne].
      * right. rewrite list_lookup_insert_eq by lia. by rewrite Hk0.
      * rewrite list_lookup_insert_ne by done.
        destruct Hin as [Hin|Hin]; [|by right].
        apply elem_of_cons in Hin as [?|?]; [done|by left].
    + apply lookup_ge_None in Hk0.
      destruct (IH values Hw) as (values' & Hs & Hw' & Hfull).
      exists values'. split_and!; [done..|].
      intros k Hk Hin. apply Hfull; [done|].
      destruct Hin as [Hin|Hin]; [|by right].
      apply elem_of_cons in Hin as [->|?]; [lia|by left].
Qed.

Lemma settle_rejected (outcomes : list (Result A)) order values k e :
  k ∈ order → outcomes !! k = Some (Throw e) →
  ∃ k' e', settle outcomes order values = Throw e' ∧
           outcomes !! k' = Some (Throw e').
Proof.
  revert values. induction order as [|k0 order IH]; intros values Hin Hk.
  - by apply elem_of_nil in Hin.
  - simpl. destruct (outcomes !! k0) as [[v|e0]|] eqn:Hk0.
    + apply elem_of_cons in Hin as [->|Hin]; [congruence|]. by apply IH.
    + by exists k0, e0.
    + apply elem_of_cons in Hin as [->|Hin]; [congruence|]. by apply IH.
Qed.

Lemma elem_of_completion_order lat n k :
  k ∈ completion_order lat n ↔ (k < n)%nat.
Proof.
  unfold completion_order. rewrite merge_sort_Permutation, elem_of_seq. lia.
Qed.

(** Whatever the completion order, the values come back in the order of the
    promises. *)
Lemma Promise_all_fulfilled lat vs : Promise_all lat (Ok <$> vs) = Ok vs.
Proof.
  unfold Promise_all. rewrite length_fmap.
  destruct (settle_fulfilled vs (completion_order lat (length vs))
              (replicate (length vs) None)) as (values' & -> & [Hlen _] & Hfull).
  { split; [by rewrite length_replicate|].
    intros k Hk. left. by apply lookup_replicate_2. }
  f_equal. assert (values' = Some <$> vs) as ->.
  { apply list_eq. intros k. rewrite list_lookup_fmap.
    destruct (decide (k < length vs)%nat) as [Hk|Hk].
    - rewrite Hfull; [|done|left; by apply elem_of_completion_order].
      by destruct (lookup_lt_is_Some_2 vs k Hk) as [v ->].
    - rewrite !lookup_ge_None_2 by lia. done. }
  clear. induction vs as [|v vs IH]; [done|]. csimpl. by f_equal.
Qed.

(** A rejected promise rejects the whole, with the error of a rejected
    promise of the batch. *)
Lemma Promise_all_rejected lat (outcomes : list (Result A)) k e :
  outcomes !! k = Some (Throw e) →
  ∃ k' e', Promise_all lat outcomes = Throw e' ∧
           outcomes !! k' = Some (Throw e').
Proof.
  intros Hk. unfold Promise_all.
  destruct (settle_rejected outcomes (completion_order lat (length outcomes))
              (replicate (length outcomes) None) k e) as (k' & e' & -> & Hk').
  - apply elem_of_completion_order. by eapply lookup_lt_Some.
  - done.
  - by exists k', e'.
Qed.
End promise_all.

(** ** The batch loop *)

Lemma mapM_issue {A} request (outcome : Z → Result A) l w :
  mapM (issue request outcome) l w = (Ok (outcome <$> l), sent (request <$> l) w).
Proof.
  revert w. induction l as [|i l IH]; intros w.
  - simpl. unfold mret, M_ret. by rewrite sent_nil.
  - simpl. unfold mbind, M_bind, issue, send. simpl. rewrite IH. simpl.
    unfold mret, M_ret. by rewrite sent_sent.
Qed.

(** A whole number is below a number exactly when it is below the least
    whole number not below that number. *)
Lemma Qlt_ceiling (a : Z) (n : Q) : (inject_Z a < n)%Q ↔ a < Qceiling n.
Proof.
  split; intros H.
  - rewrite Zlt_Qlt. eapply Qlt_le_trans; [exact H|apply Qle_ceiling].
  - eapply Qle_lt_trans; [|apply Qceiling_lt]. rewrite <-Zle_Qle. lia.
Qed.

(** [Math.min] of a whole number and a number, rounded up. *)
Lemma Qceiling_min (a : Z) (n : Q) :
  Qceiling (Qmin (inject_Z a) n) = Z.min a (Qceiling n).
Proof.
  destruct (Q.min_spec_le (inject_Z a) n) as [[Hle Heq]|[Hle Heq]];
    rewrite (Qceiling_comp _ _ Heq).
  - apply Qceiling_resp_le in Hle. rewrite Qceiling_Z in *. lia.
  - apply Qceiling_resp_le in Hle. rewrite Qceiling_Z in *. lia.
Qed.

(** The inner loop visits the whole numbers from its start on that are
    below its bound. *)
Lemma elem_of_for_range (i from : Z) (to : Q) :
  i ∈ for_range from to ↔ from ≤ i ∧ (inject_Z i < to)%Q.
Proof.
  unfold for_range. rewrite elem_of_seqZ, Qlt_ceiling. lia.
Qed.

Lemma iterations_whole env (N : Z) :
  0 ≤ N → iterations env (JInt N) = N.
Proof. intros HN. unfold iterations. simpl. rewrite Qceiling_Z. lia. Qed.

Lemma batches_done request outcome lat verb n batchStart copies w :
  ¬ batchStart < Qceiling n →
  batches request outcome lat verb n batchStart copies w = (Ok copies, w).
Proof.
  intros Hge. rewrite batches_equation_1.
  destruct (decide (inject_Z batchStart < n)%Q) as [Hlt|?]; [|done].
  destruct Hge. by apply Qlt_ceiling.
Qed.

Lemma batches_step request outcome lat verb n batchStart copies w :
  batchStart < Qceiling n →
  batches request outcome lat verb n batchStart copies w =
    let batchEnd := Z.min (batchStart + BATCH_SIZE) (Qceiling n) in
    let indices := seqZ batchStart (batchEnd - batchStart) in
    match Promise_all (λ k, lat (batchStart + Z.of_nat k)) (outcome <$> indices) with
    | Ok batchResults =>
        batches request outcome lat verb n (batchStart + BATCH_SIZE)
          (copies ++ batchResults)
          (logged [(info, verb +:+ " batch " +:+ pretty (batchStart / BATCH_SIZE + 1))]
             (sent (request <$> indices) w))
    | Throw e => (Throw e, sent (request <$> indices) w)
    end.
Proof.
  intros Hlt. rewrite batches_equation_1.
  destruct (decide (inject_Z batchStart < n)%Q) as [Hlt'|Hge];
    [|destruct Hge; by apply Qlt_ceiling].
  simpl. unfold for_range. rewrite Qceiling_min.
  unfold mbind, M_bind. rewrite mapM_issue. unfold lift.
  by destruct (Promise_all _ _).
Qed.

Lemma fulfilled_values {A} (outcome : Z → Result A) (l : list Z) :
  (∀ i, i ∈ l → ∃ v, outcome i = Ok v) →
  ∃ vs, outcome <$> l = Ok <$> vs.
Proof.
  induction l as [|i l IH]; intros Hall.
  - by exists [].
  - destruct (Hall i) as [v Hv]; [by left|].
    destruct IH as [vs Hvs]; [intros j Hj; apply Hall; by right|].
    exists (v :: vs). csimpl. by rewrite Hv, Hvs.
Qed.

(** Either every promise of a range fulfils, or there is a first one that
    rejects. *)
Lemma first_rejection {A} (outcome : Z → Result A) (a : Z) (k : nat) :
  (∀ i, a ≤ i < a + Z.of_nat k → ∃ v, outcome i = Ok v) ∨
  (∃ f e, a ≤ f < a + Z.of_nat k ∧ outcome f = Throw e ∧
          ∀ i, a ≤ i < f → ∃ v, outcome i = Ok v).
Proof.
  induction k as [|k [IH|IH]].
  - left. intros i Hi. lia.
  - destruct (outcome (a + Z.of_nat k)) as [v|e] eqn:Hk.
    + left. intros i Hi.
      destruct (decide (i = a + Z.of_nat k)) as [->|Hne]; [by exists v|].
      apply IH. lia.
    + right. exists (a + Z.of_nat k), e. split_and!; [lia|lia|done|done].
  - right. destruct IH as (f & e & Hf & He & Hbefore).
    exists f, e. split_and!; [lia|lia|done|done].
Qed.

(** The indices from [a] on are those of the batch that starts at [a],
    followed by those from the start of the next batch on. *)
Lemma seqZ_batch a n :
  a < n →
  seqZ a (n - a) =
    seqZ a (Z.min (a + BATCH_SIZE) n - a) ++ seqZ (a + BATCH_SIZE) (n - (a + BATCH_SIZE)).
Proof.
  intros Hlt. unfold BATCH_SIZE. destruct (decide (a + 20 ≤ n)%Z).
  - replace (n - a) with (20 + (n - (a + 20))) by lia.
    rewrite seqZ_app by lia. do 2 f_equal; lia.
  - rewrite (seqZ_nil _ (n - (a + 20))) by lia. rewrite app_nil_r. f_equal. lia.
Qed.

(** When every request succeeds, the loop sends one request per index, in
    index order, and returns the values in index order. *)
Lemma batches_fulfilled request outcome lat verb n value batchStart copies w :
  (∀ i, batchStart ≤ i < Qceiling n → outcome i = Ok (value i)) →
  ∃ ls,
    batches request outcome lat verb n batchStart copies w =
      (Ok (copies ++ (value <$> seqZ batchStart (Qceiling n - batchStart))),
       logged ls (sent (request <$> seqZ batchStart (Qceiling n - batchStart)) w)).
Proof.
  remember (Z.to_nat (Qceiling n - batchStart)) as m eqn:Hm.
  revert batchStart copies w Hm.
  induction m as [m IH] using lt_wf_ind. intros batchStart copies w Hm Hok.
  destruct (decide (batchStart < Qceiling n)) as [Hlt|Hge].
  - rewrite batches_step by done. cbv zeta.
    set (batchEnd := Z.min (batchStart + BATCH_SIZE) (Qceiling n)).
    assert (outcome <$> seqZ batchStart (batchEnd - batchStart)
            = Ok <$> (value <$> seqZ batchStart (batchEnd - batchStart))) as ->.
    { rewrite <-list_fmap_compose. apply list_fmap_ext.
      intros k i Hi. apply lookup_seqZ in Hi. simpl. apply Hok.
      unfold batchEnd, BATCH_SIZE in *. lia. }
    rewrite Promise_all_fulfilled.
    assert (Z.to_nat (Qceiling n - (batchStart + BATCH_SIZE)) < m)%nat as Hm'
      by (unfold BATCH_SIZE; lia).
    assert (∀ i, batchStart + BATCH_SIZE ≤ i < Qceiling n → outcome i = Ok (value i))
      as Hok'
      by (intros i Hi; apply Hok; unfold BATCH_SIZE in *; lia).
    match goal with |- ∃ _, batches _ _ _ _ _ _ ?c ?w' = _ =>
      destruct (IH _ Hm' (batchStart + BATCH_SIZE) c w' eq_refl Hok') as [ls Hrec]
    end.
    rewrite Hrec. eexists. unfold batchEnd. f_equal.
    + rewrite <-app_assoc, <-fmap_app. by rewrite <-seqZ_batch.
    + rewrite sent_logged, sent_sent, logged_logged, <-fmap_app.
      by rewrite <-seqZ_batch.
  - rewrite batches_done by done. exists [].
    rewrite seqZ_nil by lia. simpl. rewrite app_nil_r.
    f_equal. destruct w. unfold logged, sent. simpl. by rewrite !app_nil_r.
Qed.

(** When a request fails, the loop stops at the end of the batch of the first
    failure: the requests of that batch and of the batches before it have
    been sent, no other, and the loop throws the error of a request of that
    batch. *)
Lemma batches_rejected request outcome lat verb n f e0 batchStart copies w :
  batchStart ≤ f < Qceiling n →
  outcome f = Throw e0 →
  (∀ i, batchStart ≤ i < f → ∃ v, outcome i = Ok v) →
  let batchEnd :=
    Z.min (batchStart + ((f - batchStart) / BATCH_SIZE + 1) * BATCH_SIZE)
      (Qceiling n) in
  ∃ j e ls,
    batches request outcome lat verb n batchStart copies w =
      (Throw e,
       logged ls (sent (request <$> seqZ batchStart (batchEnd - batchStart)) w)) ∧
    f ≤ j < batchEnd ∧ outcome j = Throw e.
Proof.
  remember (Z.to_nat (f - batchStart)) as m eqn:Hm.
  revert batchStart copies w Hm.
  induction m as [m IH] using lt_wf_ind.
  intros batchStart copies w Hm Hf He0 Hbefore. cbv zeta.
  rewrite batches_step by lia. cbv zeta.
  destruct (decide (f < batchStart + BATCH_SIZE)%Z) as [Hin|Hout].
  - (* the first failure is in this batch *)
    assert ((f - batchStart) / BATCH_SIZE = 0) as Hq
      by (apply Z.div_small; unfold BATCH_SIZE in *; lia).
    rewrite Hq, Z.mul_1_l.
    set (batchEnd := Z.min (batchStart + BATCH_SIZE) (Qceiling n)).
    destruct (Promise_all_rejected (λ k, lat (batchStart + Z.of_nat k))
                (outcome <$> seqZ batchStart (batchEnd - batchStart))
                (Z.to_nat (f - batchStart)) e0) as (k' & e' & -> & Hk').
    { rewrite list_lookup_fmap, lookup_seqZ_lt by (unfold batchEnd; lia).
      simpl. rewrite <-He0. do 2 f_equal. lia. }
    rewrite list_lookup_fmap in Hk'.
    destruct (seqZ batchStart (batchEnd - batchStart) !! k') as [j|] eqn:Hj;
      [|done].
    apply lookup_seqZ in Hj as [-> Hj]. simpl in Hk'.
    exists (batchStart + Z.of_nat k'), e', []. split_and!.
    + f_equal. destruct w. unfold logged, sent. simpl. by rewrite app_nil_r.
    + destruct (decide (f ≤ batchStart + Z.of_nat k')%Z) as [|Hlt]; [done|].
      destruct (Hbefore (batchStart + Z.of_nat k')) as [v Hv]; [lia|].
      congruence.
    + lia.
    + congruence.
  - (* the whole batch succeeds *)
    assert (Z.min (batchStart + BATCH_SIZE) (Qceiling n) = batchStart + BATCH_SIZE)
      as ->
      by lia.
    replace (batchStart + BATCH_SIZE - batchStart) with BATCH_SIZE by lia.
    destruct (fulfilled_values outcome (seqZ batchStart BATCH_SIZE)) as [vs ->].
    { intros i Hi. apply list_elem_of_lookup in Hi as [k Hk].
      apply lookup_seqZ in Hk. apply Hbefore. lia. }
    rewrite Promise_all_fulfilled.
    assert (Z.to_nat (f - (batchStart + BATCH_SIZE)) < m)%nat as Hm'
      by (unfold BATCH_SIZE in *; lia).
    assert (∀ i, batchStart + BATCH_SIZE ≤ i < f → ∃ v, outcome i = Ok v) as Hbefore'
      by (intros i Hi; apply Hbefore; unfold BATCH_SIZE in *; lia).
    assert (batchStart + BATCH_SIZE ≤ f < Qceiling n) as Hf' by lia.
    match goal with |- ∃ _ _ _, batches _ _ _ _ _ _ ?c ?w' = _ ∧ _ =>
      destruct (IH _ Hm' (batchStart + BATCH_SIZE) c w' eq_refl Hf' He0 Hbefore')
        as (j & e & ls & Hrec & Hj & He)
    end.
    assert ((f - (batchStart + BATCH_SIZE)) / BATCH_SIZE + 1
            = (f - batchStart) / BATCH_SIZE) as Hq.
    { replace (f - (batchStart + BATCH_SIZE))
        with (f - batchStart + (-1) * BATCH_SIZE) by lia.
      rewrite Z.div_add by done. lia. }
    assert (0 ≤ (f - (batchStart + BATCH_SIZE)) / BATCH_SIZE) as Hq0
      by (apply Z.div_pos; unfold BATCH_SIZE in *; lia).
    rewrite Hq in Hrec, Hj.
    set (q := (f - batchStart) / BATCH_SIZE) in *.
    assert (batchStart + BATCH_SIZE + q * BATCH_SIZE
            = batchStart + (q + 1) * BATCH_SIZE) as Hend by lia.
    rewrite Hend in Hrec, Hj.
    set (batchEnd := Z.min (batchStart + (q + 1) * BATCH_SIZE) (Qceiling n)) in *.
    exists j, e, ([(info, verb +:+ " batch " +:+ pretty (batchStart / BATCH_SIZE + 1))] ++ ls).
    split_and!; [|lia|lia|done].
    rewrite Hrec. f_equal.
    rewrite sent_logged, sent_sent, logged_logged, <-fmap_app.
    do 3 f_equal.
    replace (batchEnd - batchStart)
      with (BATCH_SIZE + (batchEnd - (batchStart + BATCH_SIZE))) by lia.
    rewrite seqZ_app; [done|done|].
    unfold batchEnd, BATCH_SIZE in *. lia.
Qed.

(** ** The properties of a created copy *)

Section copy_body.
Variables (job : Job) (env : Env) (target : Target).
Variables (mixEntityClass : bool) (numCopies : jsval) (i : Z).

Lemma entityClass_truthy :
  truthy (entityClass mixEntityClass i) = mixEntityClass.
Proof.
  unfold entityClass. destruct mixEntityClass; [|done].
  by destruct (Z.rem i 2 =? 0).
Qed.

Lemma copyBody_copy_index :
  body_properties (copyBody job env target mixEntityClass numCopies i)
    !! "copy_index" = Some (JInt i).
Proof.
  unfold copyBody, spread_entity_class. simpl.
  destruct (truthy _); by simplify_map_eq.
Qed.

Lemma copyBody_copy_total :
  body_properties (copyBody job env target mixEntityClass numCopies i)
    !! "copy_total" = Some numCopies.
Proof.
  unfold copyBody, spread_entity_class. simpl.
  destruct (truthy _); by simplify_map_eq.
Qed.

Lemma copyBody_label :
  body_properties (copyBody job env target mixEntityClass numCopies i)
    !! "label" = Some (JStr (copyLabel env target i)).
Proof.
  unfold copyBody, spread_entity_class. simpl.
  destruct (truthy _); by simplify_map_eq.
Qed.

Lemma copyBody_entity_class :
  body_properties (copyBody job env target mixEntityClass numCopies i)
    !! "entity_class" =
    if mixEntityClass then Some (entityClass true i)
    else target_properties target !! "entity_class".
Proof.
  unfold copyBody, spread_entity_class. simpl.
  rewrite entityClass_truthy. destruct mixEntityClass; by simplify_map_eq.
Qed.
End copy_body.

Lemma entityClass_parity i :
  0 ≤ i →
  entityClass true i = JStr (if Z.even i then "canonical" else "mention").
Proof.
  intros Hi. unfold entityClass. rewrite Z.rem_mod_nonneg by lia.
  rewrite Zmod_even. by destruct (Z.even i).
Qed.

(** ** The generation path *)

Lemma created_fulfilled env mixEntityClass i data_id :
  POST_entities env i = fulfilled data_id →
  created env mixEntityClass i =
    Ok {| copy_id := data_id; entity_class := entityClass mixEntityClass i |}.
Proof. intros H. unfold created. by rewrite H. Qed.

Lemma created_failed env mixEntityClass i :
  is_failed (POST_entities env i) = true ↔
  ∃ e, created env mixEntityClass i = Throw e.
Proof.
  unfold is_failed, created. cbv zeta.
  destruct (truthy (error (POST_entities env i))), (data (POST_entities env i));
    simpl; split; intros H; try done; try (by eexists); by destruct H.
Qed.

Lemma created_not_failed env mixEntityClass i :
  is_failed (POST_entities env i) = false ↔
  ∃ v, created env mixEntityClass i = Ok v.
Proof.
  unfold is_failed, created. cbv zeta.
  destruct (truthy (error (POST_entities env i))), (data (POST_entities env i));
    simpl; split; intros H; try done; try (by eexists); by destruct H.
Qed.

Lemma seqZ_max m : seqZ 0 (Z.max 0 m) = seqZ 0 m.
Proof.
  destruct (decide (0 ≤ m)) as [Hm|Hm].
  - by rewrite Z.max_r by done.
  - rewrite Z.max_l by lia. by rewrite (seqZ_nil 0 m) by lia.
Qed.

(** With every creation of the range fulfilled, the engine sends one request
    per index from 0 on, in index order, and returns the copies in index
    order: one per run of the loop body. *)
Lemma createCopies_values job env target mixEntityClass numCopies value w :
  (∀ i, 0 ≤ i < iterations env numCopies →
        created env mixEntityClass i = Ok (value i)) →
  ∃ ls,
    createCopies job env target mixEntityClass numCopies w =
      (Ok (value <$> seqZ 0 (iterations env numCopies)),
       logged ls
         (sent (POST <$> (copyBody job env target mixEntityClass numCopies
                            <$> seqZ 0 (iterations env numCopies))) w)).
Proof.
  unfold createCopies, iterations.
  destruct (ToNumber (StringToNumber env) numCopies) as [n|].
  - intros Hok. rewrite seqZ_max.
    destruct (batches_fulfilled
                (λ i, POST (copyBody job env target mixEntityClass numCopies i))
                (created env mixEntityClass) (latency env) "Created" n
                value 0 [] w) as [ls Hls].
    { intros i Hi. apply Hok. lia. }
    exists ls. rewrite Hls, Z.sub_0_r. by rewrite <-list_fmap_compose.
  - intros _. exists []. simpl. unfold mret, M_ret. f_equal.
    destruct w. unfold logged, sent. simpl. by rewrite !app_nil_r.
Qed.

(** The same with a store that answers every creation request of the range
    with an id. *)
Lemma createCopies_fulfilled job env target mixEntityClass numCopies ids w :
  (∀ i, 0 ≤ i < iterations env numCopies → POST_entities env i = fulfilled (ids i)) →
  ∃ ls,
    createCopies job env target mixEntityClass numCopies w =
      (Ok ((λ i, {| copy_id := ids i; entity_class := entityClass mixEntityClass i |})
             <$> seqZ 0 (iterations env numCopies)),
       logged ls
         (sent (POST <$> (copyBody job env target mixEntityClass numCopies
                            <$> seqZ 0 (iterations env numCopies))) w)).
Proof.
  intros Hok. apply createCopies_values.
  intros i Hi. by apply created_fulfilled, Hok.
Qed.

(** The same for a whole count [N]. *)
Lemma createCopies_whole job env target mixEntityClass (N : Z) ids w :
  (∀ i, 0 ≤ i < N → POST_entities env i = fulfilled (ids i)) →
  ∃ ls,
    createCopies job env target mixEntityClass (JInt N) w =
      (Ok ((λ i, {| copy_id := ids i; entity_class := entityClass mixEntityClass i |})
             <$> seqZ 0 N),
       logged ls
         (sent (POST <$> (copyBody job env target mixEntityClass (JInt N)
                            <$> seqZ 0 N)) w)).
Proof.
  intros Hok.
  destruct (createCopies_fulfilled job env target mixEntityClass (JInt N) ids w)
    as [ls Hrun].
  { intros i Hi. apply Hok. revert Hi. unfold iterations. simpl.
    rewrite Qceiling_Z. lia. }
  exists ls. rewrite Hrun. unfold iterations. simpl.
  by rewrite Qceiling_Z, seqZ_max.
Qed.

(** C2.  For every copy count [N >= 0] given to the copy generation engine,
    with a store that answers every creation request with an id, generation
    returns exactly [N] copies, carrying the ids the store gave, in index
    order; it sends exactly [N] creation requests and nothing else; the
    [copy_index] values of the created copies are 0, ..., [N-1], each once;
    and every created copy has [copy_total = N]. *)
Theorem generation_creates_N_indexed_copies
    job env target mixEntityClass (N : Z) ids w :
  0 ≤ N →
  (∀ i, 0 ≤ i < N → POST_entities env i = fulfilled (ids i)) →
  ∃ copies w' bodies,
    createCopies job env target mixEntityClass (JInt N) w = (Ok copies, w') ∧
    length copies = Z.to_nat N ∧
    copy_id <$> copies = ids <$> seqZ 0 N ∧
    calls w' = calls w ++ (POST <$> bodies) ∧
    length bodies = Z.to_nat N ∧
    (λ b, body_properties b !! "copy_index") <$> bodies
      = (λ i, Some (JInt i)) <$> seqZ 0 N ∧
    Forall (λ b, body_properties b !! "copy_total" = Some (JInt N)) bodies.
Proof.
  intros HN Hok.
  destruct (createCopies_whole job env target mixEntityClass N ids w Hok)
    as [ls Hrun].
  eexists _, _, _. split; [exact Hrun|]. split_and!.
  - by rewrite length_fmap, length_seqZ.
  - by rewrite <-list_fmap_compose.
  - done.
  - by rewrite length_fmap, length_seqZ.
  - rewrite <-list_fmap_compose. apply list_fmap_ext. intros k i _. simpl.
    apply copyBody_copy_index.
  - apply Forall_fmap, Forall_forall. intros i _. simpl.
    apply copyBody_copy_total.
Qed.

Lemma generation_creates_N_indexed_copies_witness :
  0 ≤ 45 ∧
  (∀ i, 0 ≤ i < 45 → POST_entities (ex_env ∅) i = fulfilled (ex_ids i)) ∧
  ∃ copies w' bodies,
    createCopies ex_job (ex_env ∅) (ex_target ∅) true (JInt 45) start
      = (Ok copies, w') ∧
    length copies = Z.to_nat 45 ∧
    copy_id <$> copies = ex_ids <$> seqZ 0 45 ∧
    calls w' = calls start ++ (POST <$> bodies) ∧
    length bodies = Z.to_nat 45 ∧
    (λ b, body_properties b !! "copy_index") <$> bodies
      = (λ i, Some (JInt i)) <$> seqZ 0 45 ∧
    Forall (λ b, body_properties b !! "copy_total" = Some (JInt 45)) bodies.
Proof.
  assert (0 ≤ 45) as H0 by lia.
  assert (∀ i, 0 ≤ i < 45 → POST_entities (ex_env ∅) i = fulfilled (ex_ids i))
    as H1 by (intros i _; reflexivity).
  split; [exact H0|]. split; [exact H1|].
  exact (generation_creates_N_indexed_copies
           ex_job (ex_env ∅) (ex_target ∅) true 45 ex_ids start H0 H1).
Defined.

(** C5 (amended).  With [mixEntityClass] true, for every copy count [N] and
    every index [0 <= i < N], the copy created at index [i] carries
    [entity_class] "canonical" if [i] is even and "mention" if [i] is odd.
    With [mixEntityClass] false the engine adds no [entity_class] of its own:
    the created copy has the [entity_class] of the target's property bag, and
    none when the target has none. *)
Theorem entity_class_alternates_or_is_inherited
    job env target mixEntityClass (N : Z) ids w (i : Z) :
  (∀ j, 0 ≤ j < N → POST_entities env j = fulfilled (ids j)) →
  0 ≤ i < N →
  ∃ copies w' bodies body,
    createCopies job env target mixEntityClass (JInt N) w = (Ok copies, w') ∧
    calls w' = calls w ++ (POST <$> bodies) ∧
    bodies !! Z.to_nat i = Some body ∧
    body_properties body !! "copy_index" = Some (JInt i) ∧
    body_properties body !! "entity_class" =
      if mixEntityClass
      then Some (JStr (if Z.even i then "canonical" else "mention"))
      else target_properties target !! "entity_class".
Proof.
  intros Hok Hi.
  destruct (createCopies_whole job env target mixEntityClass N ids w Hok)
    as [ls Hrun].
  eexists _, _, _, (copyBody job env target mixEntityClass (JInt N) i).
  split; [exact Hrun|]. split_and!.
  - done.
  - rewrite list_lookup_fmap, lookup_seqZ_lt by lia. simpl. do 2 f_equal. lia.
  - apply copyBody_copy_index.
  - rewrite copyBody_entity_class. destruct mixEntityClass; [|done].
    by rewrite entityClass_parity by lia.
Qed.

Lemma entity_class_alternates_or_is_inherited_witness :
  (∀ j, 0 ≤ j < 6 → POST_entities (ex_env ∅) j = fulfilled (ex_ids j)) ∧
  0 ≤ 3 < 6 ∧
  ∃ copies w' bodies body,
    createCopies ex_job (ex_env ∅) (ex_target ∅) true (JInt 6) start
      = (Ok copies, w') ∧
    calls w' = calls start ++ (POST <$> bodies) ∧
    bodies !! Z.to_nat 3 = Some body ∧
    body_properties body !! "copy_index" = Some (JInt 3) ∧
    body_properties body !! "entity_class" = Some (JStr "mention").
Proof.
  assert (∀ j, 0 ≤ j < 6 → POST_entities (ex_env ∅) j = fulfilled (ex_ids j))
    as H1 by (intros j _; reflexivity).
  assert (0 ≤ 3 < 6) as H2 by lia.
  split; [exact H1|]. split; [exact H2|].
  exact (entity_class_alternates_or_is_inherited
           ex_job (ex_env ∅) (ex_target ∅) true 6 ex_ids start 3 H1 H2).
Defined.

(** C5 as stated fails: a target that has an [entity_class] of its own and
    no [mix_entity_class] flag hands it on to every copy, through the spread
    of its properties. *)
Lemma entity_class_without_mix_counterexample :
  let props : gmap string jsval := {[ "entity_class" := JStr "canonical" ]} in
  mixEntityClass_of (ex_target props) = false ∧
  ∃ body,
    posted (calls (processJob ex_job (ex_env props) start).2) !! 0%nat = Some body ∧
    body_properties body !! "entity_class" = Some (JStr "canonical") ∧
    body_properties body !! "entity_class" ≠ None.
Proof.
  simpl. split; [reflexivity|].
  eexists. split; [vm_compute; reflexivity|]. by vm_compute.
Qed.

(** C10.  For a target whose [label] is absent or falsy, every created copy
    is labelled with the fallback, "Entity - Copy <i+1>", while its one
    relationship, [copy_of], carries the target's raw [label] as
    [peer_label], without the fallback: [undefined] when the target has no
    label. *)
Theorem label_falls_back_but_peer_label_does_not
    job env target mixEntityClass (N : Z) ids w (i : Z) :
  truthy (get (target_properties target) "label") = false →
  (∀ j, 0 ≤ j < N → POST_entities env j = fulfilled (ids j)) →
  0 ≤ i < N →
  ∃ copies w' bodies body,
    createCopies job env target mixEntityClass (JInt N) w = (Ok copies, w') ∧
    calls w' = calls w ++ (POST <$> bodies) ∧
    bodies !! Z.to_nat i = Some body ∧
    body_properties body !! "label"
      = Some (JStr ("Entity - Copy " +:+ pretty (i + 1))) ∧
    body_relationships body =
      [ {| predicate := "copy_of";
           peer := target_id target;
           peer_type := target_type target;
           peer_label := get (target_properties target) "label" |} ] ∧
    (if target_properties target !! "label" is None
     then peer_label <$> body_relationships body = [JUndefined]
     else True).
Proof.
  intros Hlabel Hok Hi.
  destruct (createCopies_whole job env target mixEntityClass N ids w Hok)
    as [ls Hrun].
  eexists _, _, _, (copyBody job env target mixEntityClass (JInt N) i).
  split; [exact Hrun|]. split_and!.
  - done.
  - rewrite list_lookup_fmap, lookup_seqZ_lt by lia. simpl. do 2 f_equal. lia.
  - rewrite copyBody_label. unfold copyLabel, js_or. by rewrite Hlabel.
  - done.
  - simpl. unfold get. by destruct (target_properties target !! "label").
Qed.

Lemma label_falls_back_but_peer_label_does_not_witness :
  truthy (get (target_properties (ex_target ∅)) "label") = false ∧
  (∀ j, 0 ≤ j < 3 → POST_entities (ex_env ∅) j = fulfilled (ex_ids j)) ∧
  0 ≤ 1 < 3 ∧
  ∃ copies w' bodies body,
    createCopies ex_job (ex_env ∅) (ex_target ∅) false (JInt 3) start
      = (Ok copies, w') ∧
    calls w' = calls start ++ (POST <$> bodies) ∧
    bodies !! Z.to_nat 1 = Some body ∧
    body_properties body !! "label" = Some (JStr "Entity - Copy 2") ∧
    body_relationships body =
      [ {| predicate := "copy_of"; peer := "T"; peer_type := "test_entity";
           peer_label := JUndefined |} ].
Proof.
  assert (truthy (get (target_properties (ex_target ∅)) "label") = false)
    as H0 by reflexivity.
  assert (∀ j, 0 ≤ j < 3 → POST_entities (ex_env ∅) j = fulfilled (ex_ids j))
    as H1 by (intros j _; reflexivity).
  assert (0 ≤ 1 < 3) as H2 by lia.
  split; [exact H0|]. split; [exact H1|]. split; [exact H2|].
  destruct (label_falls_back_but_peer_label_does_not
              ex_job (ex_env ∅) (ex_target ∅) false 3 ex_ids start 1 H0 H1 H2)
    as (copies & w' & bodies & body & Hrun & Hcalls & Hbody & Hlabel & Hrel & _).
  exists copies, w', bodies, body. split_and!; done.
Defined.

(** ** The back-link *)

(** The back-link update never throws; it sends the tip read and, if that
    gave a tip, the conditional update, creates nothing, and writes one log
    entry when the tip read or the update failed. *)
Lemma backLink_runs env target copies w :
  ∃ w',
    backLink env target copies w = (Ok tt, w') ∧
    logs w' = logs w ++ backLink_log (GET_tip env) (PUT_entity env) ∧
    posted (calls w') = posted (calls w) ∧
    (is_failed (GET_tip env) = true →
     calls w' = calls w ++ [GET_entity_tip (target_id target)]).
Proof.
  unfold backLink, backLink_log, is_failed, mbind, M_bind, send, log. simpl.
  destruct (truthy (error (GET_tip env))), (data (GET_tip env)) as [cid|]; simpl;
    try (eexists; split; [reflexivity|]; unfold logged, sent; simpl;
         split; [done|]; split; [|done];
         rewrite posted_app; simpl; by rewrite app_nil_r).
  destruct (truthy (PUT_entity env)); simpl.
  - eexists. split; [reflexivity|]. unfold logged, sent. simpl.
    split; [done|]. split; [|done]. rewrite !posted_app. simpl.
    by rewrite !app_nil_r.
  - eexists. split; [reflexivity|]. unfold logged, sent. simpl.
    split; [by rewrite app_nil_r|]. split; [|done]. rewrite !posted_app. simpl.
    by rewrite !app_nil_r.
Qed.

(** ** [processJob], path by path *)

Lemma processJob_generate job env target w :
  fetchTarget env = Ok target →
  useExistingCopies_of target = false →
  processJob job env w =
    match createCopies job env target (mixEntityClass_of target) (numCopies_of target)
            (logged [(info, "Scatter worker starting");
                     (info, "Fetched target entity")] w) with
    | (Ok copies, w1) =>
        (Ok (toOutput <$> copies),
         logged [(success, "Scatter complete")] (backLink env target copies w1).2)
    | (Throw e, w1) => (Throw e, w1)
    end.
Proof.
  intros Htarget Hmode. unfold processJob, useExistingCopies_of in *.
  rewrite Htarget. unfold mbind at 1, M_bind at 1, lift.
  rewrite Hmode. unfold mbind, M_bind, log. simpl. rewrite logged_logged. simpl.
  destruct (createCopies _ _ _ _ _ _) as [[copies|e] w1]; [|done].
  by destruct (backLink_runs env target copies w1) as (w2 & -> & _).
Qed.

Lemma processJob_existing job env target w :
  fetchTarget env = Ok target →
  useExistingCopies_of target = true →
  processJob job env w =
    processExistingCopies job env target (mixEntityClass_of target)
      (logged [(info, "Scatter worker starting")] w).
Proof.
  intros Htarget Hmode. unfold processJob, useExistingCopies_of in *.
  rewrite Htarget. unfold mbind at 1, M_bind at 1, lift.
  rewrite Hmode. unfold mbind, M_bind, log. done.
Qed.

Lemma processJob_no_target job env e w :
  fetchTarget env = Throw e → processJob job env w = (Throw e, w).
Proof. intros H. unfold processJob. rewrite H. done. Qed.



(** ** Failure of a creation request *)

(** C7.  If any single copy-creation request fails (an error, or no data:
    the worker's test is [error || !data]), the whole job aborts with an
    error, that of a failed creation of the batch of the first failure.
    Nothing is rolled back: when the job throws, the requests it has sent
    are exactly the creation requests of the batches up to and including
    that batch ([f] is the index of the first failure), so the copies of the
    completed batches and those created concurrently in the failing batch
    stay; no request deletes or updates anything. *)
Theorem creation_failure_aborts_without_rollback
    job env target (n : Q) (i : Z) w :
  fetchTarget env = Ok target →
  useExistingCopies_of target = false →
  ToNumber (StringToNumber env) (numCopies_of target) = Some n →
  (0 ≤ i ∧ (inject_Z i < n)%Q) →
  is_failed (POST_entities env i) = true →
  ∃ f j e w',
    0 ≤ f ≤ i ∧
    is_failed (POST_entities env f) = true ∧
    (∀ k, 0 ≤ k < f → is_failed (POST_entities env k) = false) ∧
    processJob job env w = (Throw e, w') ∧
    f ≤ j < Z.min ((f / BATCH_SIZE + 1) * BATCH_SIZE) (Qceiling n) ∧
    created env (mixEntityClass_of target) j = Throw e ∧
    calls w' = calls w ++
      (POST <$> (copyBody job env target (mixEntityClass_of target)
                   (numCopies_of target)
                 <$> seqZ 0 (Z.min ((f / BATCH_SIZE + 1) * BATCH_SIZE) (Qceiling n)))).
Proof.
  intros Htarget Hmode Hn [Hi0 Hin] Hfail.
  apply Qlt_ceiling in Hin.
  remember (mixEntityClass_of target) as mix eqn:Hmix.
  destruct (first_rejection (created env mix) 0 (Z.to_nat (Qceiling n)))
    as [Hall|(f & e0 & Hf & He0 & Hbefore)].
  { destruct (Hall i) as [v Hv]; [lia|].
    destruct (proj1 (created_failed env mix i) Hfail) as [e He]. congruence. }
  assert (f ≤ i) as Hfi.
  { destruct (decide (f ≤ i)) as [|Hgt]; [done|].
    destruct (Hbefore i) as [v Hv]; [lia|].
    destruct (proj1 (created_failed env mix i) Hfail) as [e He]. congruence. }
  destruct (batches_rejected
              (λ i, POST (copyBody job env target mix (numCopies_of target) i))
              (created env mix) (latency env) "Created" n f e0 0 []
              (logged [(info, "Scatter worker starting");
                       (info, "Fetched target entity")] w))
    as (j & e & ls & Hrun & Hj & He); [lia|done|done|].
  rewrite !Z.sub_0_r, !Z.add_0_l in *.
  eexists f, j, e, _. split_and!; try done; try lia.
  - apply (created_failed env mix). by exists e0.
  - intros k Hk. apply (created_not_failed env mix), Hbefore. lia.
  - rewrite (processJob_generate _ _ target) by done.
    unfold createCopies. rewrite Hn, <-Hmix. by rewrite Hrun.
  - simpl. by rewrite <-list_fmap_compose.
Qed.

Lemma creation_failure_aborts_without_rollback_witness :
  let props : gmap string jsval := {[ "copy_count" := JInt 45 ]} in
  fetchTarget (ex_env_failing props) = Ok (ex_target props) ∧
  useExistingCopies_of (ex_target props) = false ∧
  ToNumber (StringToNumber (ex_env_failing props)) (numCopies_of (ex_target props))
    = Some (inject_Z 45) ∧
  (0 ≤ 25 ∧ (inject_Z 25 < inject_Z 45)%Q) ∧
  is_failed (POST_entities (ex_env_failing props) 25) = true ∧
  ∃ e w',
    processJob ex_job (ex_env_failing props) start = (Throw e, w') ∧
    length (calls w') = 40%nat.
Proof.
  intros props.
  assert (fetchTarget (ex_env_failing props) = Ok (ex_target props))
    as H0 by reflexivity.
  assert (useExistingCopies_of (ex_target props) = false) as H1 by reflexivity.
  assert (ToNumber (StringToNumber (ex_env_failing props))
            (numCopies_of (ex_target props)) = Some (inject_Z 45)) as H2
    by reflexivity.
  assert (0 ≤ 25 ∧ (inject_Z 25 < inject_Z 45)%Q) as H3
    by (split; [lia|reflexivity]).
  assert (is_failed (POST_entities (ex_env_failing props) 25) = true)
    as H4 by reflexivity.
  split_and!; [exact H0|exact H1|exact H2|exact (proj1 H3)|exact (proj2 H3)
              |exact H4|].
  destruct (creation_failure_aborts_without_rollback
              ex_job (ex_env_failing props) (ex_target props) (inject_Z 45) 25 start
              H0 H1 H2 H3 H4)
    as (f & j & e & w' & Hf & Hff & Hbefore & Hrun & Hj & He & Hcalls).
  exists e, w'. split; [exact Hrun|].
  assert (f = 25) as ->.
  { destruct (decide (f = 25)) as [|Hne]; [done|].
    assert (is_failed (POST_entities (ex_env_failing props) f) = false) as Hok.
    { simpl. destruct (f =? 25) eqn:Heq; [lia|reflexivity]. }
    congruence. }
  rewrite Hcalls. change (calls start) with (@nil Call).
  rewrite app_nil_l, !length_fmap, length_seqZ. reflexivity.
Defined.

(** ** The copy count *)







(** ** The existing-copies path *)

Lemma fetched_fulfilled env mixEntityClass copyRelationships i d :
  GET_copy env i (peer_at copyRelationships i) = fulfilled d →
  fetched env mixEntityClass copyRelationships i =
    Ok {| copy_id := id d;
          entity_class :=
            if mixEntityClass then get (properties d) "entity_class"
            else JUndefined |}.
Proof. intros H. unfold fetched. by rewrite H. Qed.

Lemma has_copy_relationships_filter entityWithRels :
  has_copy_relationships entityWithRels =
    filter (λ r, predicate r = "has_copy") (default [] (relationships entityWithRels)).
Proof. unfold has_copy_relationships. by destruct (relationships entityWithRels). Qed.

(** A response that passes the guard [error || !data] carries data. *)
Lemma not_failed_data {A} (r : Response A) :
  is_failed r = false → ∃ a, data r = Some a ∧ truthy (error r) = false.
Proof.
  unfold is_failed. destruct (truthy (error r)), (data r) as [a|]; try done.
  intros _. by exists a.
Qed.

(** With the target re-fetched and every copy fetched, the reader sends one
    fetch for the target and one per [has_copy] relationship, in the order of
    the relationships, and returns the classified copies in that order. *)
Lemma processExistingCopies_values job env target mixEntityClass e value w :
  truthy (error (GET_target env)) = false →
  data (GET_target env) = Some e →
  (∀ i, 0 ≤ i < Z.of_nat (length (has_copy_relationships e)) →
        fetched env mixEntityClass (has_copy_relationships e) i = Ok (value i)) →
  ∃ ls,
    processExistingCopies job env target mixEntityClass w =
      (Ok (toOutput <$>
             (value <$> seqZ 0 (Z.of_nat (length (has_copy_relationships e))))),
       logged ls
         (sent (GET_entity (target_id target) ::
                  ((λ i, GET_entity (peer_at (has_copy_relationships e) i))
                     <$> seqZ 0 (Z.of_nat (length (has_copy_relationships e)))))
            w)).
Proof.
  intros Herr Hdata Hok. unfold processExistingCopies, mbind, M_bind, send.
  rewrite Herr, Hdata. simpl.
  destruct (decide (length (has_copy_relationships e) = 0%nat)) as [Hnil|Hne].
  - rewrite Hnil. simpl. eexists. unfold log. simpl. reflexivity.
  - edestruct (batches_fulfilled
                 (λ i, GET_entity (peer_at (has_copy_relationships e) i))
                 (fetched env mixEntityClass (has_copy_relationships e))
                 (latency env) "Fetched"
                 (inject_Z (Z.of_nat (length (has_copy_relationships e)))))
      as [ls ->].
    { intros i Hi. apply Hok. rewrite Qceiling_Z in Hi. lia. }
    unfold mret, M_ret. rewrite Qceiling_Z, Z.sub_0_r.
    rewrite !sent_logged, sent_sent, !logged_logged. simpl.
    eexists. reflexivity.
Qed.

Lemma processExistingCopies_fulfilled job env target mixEntityClass e ents w :
  GET_target env = fulfilled e →
  (∀ i, 0 ≤ i < Z.of_nat (length (has_copy_relationships e)) →
        GET_copy env i (peer_at (has_copy_relationships e) i) = fulfilled (ents i)) →
  ∃ ls,
    processExistingCopies job env target mixEntityClass w =
      (Ok (toOutput <$>
             ((λ i, {| copy_id := id (ents i);
                       entity_class :=
                         if mixEntityClass
                         then get (properties (ents i)) "entity_class"
                         else JUndefined |})
                <$> seqZ 0 (Z.of_nat (length (has_copy_relationships e))))),
       logged ls
         (sent (GET_entity (target_id target) ::
                  ((λ i, GET_entity (peer_at (has_copy_relationships e) i))
                     <$> seqZ 0 (Z.of_nat (length (has_copy_relationships e)))))
            w)).
Proof.
  intros Htarget Hok.
  apply processExistingCopies_values; [by rewrite Htarget..|].
  intros i Hi. by apply fetched_fulfilled, Hok.
Qed.

(** The flags do not look at [copy_count]. *)
Lemma flags_set_copy_count (props : gmap string jsval) v k :
  k ≠ "copy_count" →
  get (<["copy_count" := v]> props) k = get props k.
Proof. intros Hk. unfold get. by rewrite lookup_insert_ne. Qed.

(** C4.  In existing-copies mode the number of outputs equals the number of
    relationships with predicate [has_copy] on the re-fetched target,
    whatever [copy_count] the target has; the path sends only requests that
    read an entity (it creates no record and attempts no back-link update);
    and with no [has_copy] relationship the job returns the empty output
    sequence, logged, not an error. *)
Theorem existing_copies_mode_reads_and_counts_relationships
    job env target e ents w :
  fetchTarget env = Ok target →
  useExistingCopies_of target = true →
  GET_target env = fulfilled e →
  (∀ i, 0 ≤ i < Z.of_nat (length (has_copy_relationships e)) →
        GET_copy env i (peer_at (has_copy_relationships e) i) = fulfilled (ents i)) →
  ∃ outs w' cs,
    processJob job env w = (Ok outs, w') ∧
    length outs =
      length (filter (λ r, predicate r = "has_copy") (default [] (relationships e))) ∧
    (∀ v, (processJob job (set_copy_count v env) w).1 = Ok outs) ∧
    calls w' = calls w ++ cs ∧
    Forall is_GET_entity cs ∧
    posted (calls w') = posted (calls w) ∧
    (filter (λ r, predicate r = "has_copy") (default [] (relationships e)) = [] →
     outs = [] ∧ (info, "No existing copies found") ∈ logs w').
Proof.
  intros Htarget Hmode He Hok.
  rewrite (processJob_existing _ _ target) by done.
  destruct (processExistingCopies_fulfilled job env target (mixEntityClass_of target)
              e ents (logged [(info, "Scatter worker starting")] w) He Hok)
    as [ls Hrun].
  eexists _, _, _. split; [exact Hrun|]. split_and!.
  - rewrite <-has_copy_relationships_filter.
    rewrite !length_fmap, length_seqZ. lia.
  - intros v.
    set (target' := {| target_id := target_id target;
                       target_type := target_type target;
                       target_properties :=
                         <["copy_count" := v]> (target_properties target) |}).
    assert (fetchTarget (set_copy_count v env) = Ok target') as Htarget'
      by (simpl; by rewrite Htarget).
    assert (useExistingCopies_of target' = true) as Hmode'.
    { unfold useExistingCopies_of in *. simpl.
      by rewrite flags_set_copy_count. }
    assert (mixEntityClass_of target' = mixEntityClass_of target) as Hmix.
    { unfold mixEntityClass_of. simpl. by rewrite flags_set_copy_count. }
    rewrite (processJob_existing _ _ target') by done. rewrite Hmix.
    destruct (processExistingCopies_fulfilled job (set_copy_count v env) target'
                (mixEntityClass_of target) e ents
                (logged [(info, "Scatter worker starting")] w) He Hok)
      as [ls' ->].
    done.
  - simpl. reflexivity.
  - constructor; [done|]. apply Forall_fmap, Forall_forall. by intros i _.
  - simpl. rewrite posted_app, (posted_GET_entity (GET_entity _ :: _));
      [by rewrite app_nil_r|].
    constructor; [done|]. apply Forall_fmap, Forall_forall. by intros i _.
  - rewrite <-has_copy_relationships_filter. intros Hnil.
    revert Hrun. unfold processExistingCopies, mbind, M_bind, send.
    rewrite He. simpl. rewrite Hnil. simpl. unfold log. simpl.
    intros Hrun. injection Hrun as Hw. rewrite <-Hw. simpl.
    split; [done|]. set_solver.
Qed.

Lemma existing_copies_mode_reads_and_counts_relationships_witness :
  let env := ex_env ex_existing_props in
  let e := ex_entity ex_existing_props in
  let ents := λ i, ex_copy (peer_at (has_copy_relationships e) i) in
  fetchTarget env = Ok (ex_target ex_existing_props) ∧
  useExistingCopies_of (ex_target ex_existing_props) = true ∧
  GET_target env = fulfilled e ∧
  (∀ i, 0 ≤ i < Z.of_nat (length (has_copy_relationships e)) →
        GET_copy env i (peer_at (has_copy_relationships e) i) = fulfilled (ents i)) ∧
  ∃ outs w',
    processJob ex_job env start = (Ok outs, w') ∧
    length outs = 3%nat ∧
    posted (calls w') = [].
Proof.
  intros env e ents.
  assert (fetchTarget env = Ok (ex_target ex_existing_props)) as H0 by reflexivity.
  assert (useExistingCopies_of (ex_target ex_existing_props) = true)
    as H1 by reflexivity.
  assert (GET_target env = fulfilled e) as H2 by reflexivity.
  assert (∀ i, 0 ≤ i < Z.of_nat (length (has_copy_relationships e)) →
               GET_copy env i (peer_at (has_copy_relationships e) i)
               = fulfilled (ents i)) as H3 by (intros i _; reflexivity).
  split_and!; [exact H0|exact H1|exact H2|exact H3|].
  destruct (existing_copies_mode_reads_and_counts_relationships
              ex_job env (ex_target ex_existing_props) e ents start H0 H1 H2 H3)
    as (outs & w' & cs & Hrun & Hlen & _ & _ & _ & Hposted & _).
  exists outs, w'. split_and!; [exact Hrun|exact Hlen|exact Hposted].
Defined.

(** C8.  In existing-copies mode with [mixEntityClass] true, a fetched copy
    whose [entity_class] property is present but falsy (the empty string,
    for one) is emitted as a bare identifier, not as a tagged object: the
    classifier tests the truthiness of [entity_class], not its presence. *)
Theorem falsy_entity_class_gives_bare_identifier
    job env target e ents w (k : nat) (v : jsval) :
  fetchTarget env = Ok target →
  useExistingCopies_of target = true →
  mixEntityClass_of target = true →
  GET_target env = fulfilled e →
  (∀ i, 0 ≤ i < Z.of_nat (length (has_copy_relationships e)) →
        GET_copy env i (peer_at (has_copy_relationships e) i) = fulfilled (ents i)) →
  (k < length (has_copy_relationships e))%nat →
  properties (ents (Z.of_nat k)) !! "entity_class" = Some v →
  truthy v = false →
  ∃ outs w',
    processJob job env w = (Ok outs, w') ∧
    outs !! k = Some (OutputId (id (ents (Z.of_nat k)))).
Proof.
  intros Htarget Hmode Hmix He Hok Hk Hv Hfalsy.
  rewrite (processJob_existing _ _ target) by done. rewrite Hmix.
  destruct (processExistingCopies_fulfilled job env target true
              e ents (logged [(info, "Scatter worker starting")] w) He Hok)
    as [ls ->].
  eexists _, _. split; [done|].
  rewrite !list_lookup_fmap, lookup_seqZ_lt by lia. simpl.
  unfold toOutput, get. simpl. rewrite Z.add_0_l, Hv. simpl. by rewrite Hfalsy.
Qed.

Lemma falsy_entity_class_gives_bare_identifier_witness :
  let env := ex_env ex_existing_props in
  let e := ex_entity ex_existing_props in
  let ents := λ i, ex_copy (peer_at (has_copy_relationships e) i) in
  fetchTarget env = Ok (ex_target ex_existing_props) ∧
  useExistingCopies_of (ex_target ex_existing_props) = true ∧
  mixEntityClass_of (ex_target ex_existing_props) = true ∧
  GET_target env = fulfilled e ∧
  (∀ i, 0 ≤ i < Z.of_nat (length (has_copy_relationships e)) →
        GET_copy env i (peer_at (has_copy_relationships e) i) = fulfilled (ents i)) ∧
  (1 < length (has_copy_relationships e))%nat ∧
  properties (ents (Z.of_nat 1)) !! "entity_class" = Some (JStr "") ∧
  truthy (JStr "") = false ∧
  ∃ outs w',
    processJob ex_job env start = (Ok outs, w') ∧
    outs !! 1%nat = Some (OutputId "p1").
Proof.
  intros env e ents.
  assert (fetchTarget env = Ok (ex_target ex_existing_props)) as H0 by reflexivity.
  assert (useExistingCopies_of (ex_target ex_existing_props) = true)
    as H1 by reflexivity.
  assert (mixEntityClass_of (ex_target ex_existing_props) = true)
    as H2 by reflexivity.
  assert (GET_target env = fulfilled e) as H3 by reflexivity.
  assert (∀ i, 0 ≤ i < Z.of_nat (length (has_copy_relationships e)) →
               GET_copy env i (peer_at (has_copy_relationships e) i)
               = fulfilled (ents i)) as H4 by (intros i _; reflexivity).
  assert (1 < length (has_copy_relationships e))%nat as H5 by (vm_compute; lia).
  assert (properties (ents (Z.of_nat 1)) !! "entity_class" = Some (JStr ""))
    as H6 by reflexivity.
  assert (truthy (JStr "") = false) as H7 by reflexivity.
  split_and!; [exact H0|exact H1|exact H2|exact H3|exact H4|exact H5|exact H6
              |exact H7|].
  exact (falsy_entity_class_gives_bare_identifier
           ex_job env (ex_target ex_existing_props) e ents start 1 (JStr "")
           H0 H1 H2 H3 H4 H5 H6 H7).
Defined.

(** C9.  In existing-copies mode, with a store that answers each fetch with
    the entity asked for, the emitted outputs name the peers of the target's
    [has_copy] relationships, in the order in which these relationships
    appear in the target's relationship sequence. *)
Theorem existing_copies_outputs_follow_relationship_order
    job env target e w :
  fetchTarget env = Ok target →
  useExistingCopies_of target = true →
  GET_target env = fulfilled e →
  (∀ (i : nat) rel, has_copy_relationships e !! i = Some rel →
     ∃ d, GET_copy env (Z.of_nat i) (peer rel) = fulfilled d ∧ id d = peer rel) →
  ∃ outs w',
    processJob job env w = (Ok outs, w') ∧
    output_id <$> outs =
      peer <$> filter (λ r, predicate r = "has_copy") (default [] (relationships e)).
Proof.
  intros Htarget Hmode He Hstore.
  set (rels := has_copy_relationships e).
  set (ents := λ i, default (ex_copy "")
                      (data (GET_copy env i (peer_at rels i)))).
  assert (∀ (i : nat) rel, rels !! i = Some rel →
            GET_copy env (Z.of_nat i) (peer_at rels (Z.of_nat i))
              = fulfilled (ents (Z.of_nat i)) ∧
            id (ents (Z.of_nat i)) = peer rel) as Hents.
  { intros i rel Hrel. destruct (Hstore i rel Hrel) as (d & Hd & Hid).
    unfold ents, peer_at. rewrite Nat2Z.id. fold rels. rewrite Hrel. simpl.
    by rewrite Hd. }
  rewrite (processJob_existing _ _ target) by done.
  destruct (processExistingCopies_fulfilled job env target (mixEntityClass_of target)
              e ents (logged [(info, "Scatter worker starting")] w) He)
    as [ls ->].
  { intros i Hi. fold rels in Hi |- *.
    destruct (lookup_lt_is_Some_2 rels (Z.to_nat i)) as [rel Hrel]; [lia|].
    destruct (Hents _ _ Hrel) as [Hd _]. by rewrite Z2Nat.id in Hd by lia. }
  eexists _, _. split; [done|].
  rewrite <-has_copy_relationships_filter. fold rels.
  apply list_eq. intros k. rewrite !list_lookup_fmap.
  destruct (rels !! k) as [rel|] eqn:Hrel.
  - rewrite lookup_seqZ_lt by (apply lookup_lt_Some in Hrel; lia). simpl.
    destruct (Hents _ _ Hrel) as [_ Hid]. rewrite Z.add_0_l.
    unfold toOutput. simpl. rewrite <-Hid. by destruct (truthy _).
  - rewrite lookup_seqZ_ge; [done|]. apply lookup_ge_None in Hrel. lia.
Qed.

Lemma existing_copies_outputs_follow_relationship_order_witness :
  let env := ex_env ex_existing_props in
  let e := ex_entity ex_existing_props in
  fetchTarget env = Ok (ex_target ex_existing_props) ∧
  useExistingCopies_of (ex_target ex_existing_props) = true ∧
  GET_target env = fulfilled e ∧
  (∀ (i : nat) rel, has_copy_relationships e !! i = Some rel →
     ∃ d, GET_copy env (Z.of_nat i) (peer rel) = fulfilled d ∧ id d = peer rel) ∧
  ∃ outs w',
    processJob ex_job env start = (Ok outs, w') ∧
    output_id <$> outs = ["p0"; "p1"; "p2"].
Proof.
  intros env e.
  assert (fetchTarget env = Ok (ex_target ex_existing_props)) as H0 by reflexivity.
  assert (useExistingCopies_of (ex_target ex_existing_props) = true)
    as H1 by reflexivity.
  assert (GET_target env = fulfilled e) as H2 by reflexivity.
  assert (∀ (i : nat) rel, has_copy_relationships e !! i = Some rel →
            ∃ d, GET_copy env (Z.of_nat i) (peer rel) = fulfilled d
                 ∧ id d = peer rel) as H3
    by (intros i rel _; exists (ex_copy (peer rel)); split; reflexivity).
  split_and!; [exact H0|exact H1|exact H2|exact H3|].
  exact (existing_copies_outputs_follow_relationship_order
           ex_job env (ex_target ex_existing_props) e start H0 H1 H2 H3).
Defined.

(** ** The order of the outputs *)

(** If the loop returns, every promise of the range has fulfilled, and the
    copies returned are their values, in index order. *)
Lemma batches_Ok_inv request outcome lat verb n w copies w' :
  batches request outcome lat verb n 0 [] w = (Ok copies, w') →
  (∀ i, 0 ≤ i < Qceiling n → outcome i = Ok (value_of outcome i)) ∧
  copies = value_of outcome <$> seqZ 0 (Qceiling n).
Proof.
  intros Hrun.
  destruct (first_rejection outcome 0 (Z.to_nat (Qceiling n)))
    as [Hall|(f & e0 & Hf & He0 & Hbefore)].
  - assert (∀ i, 0 ≤ i < Qceiling n → outcome i = Ok (value_of outcome i)) as Hok.
    { intros i Hi. destruct (Hall i) as [v Hv]; [lia|].
      unfold value_of. by rewrite Hv. }
    split; [done|].
    destruct (batches_fulfilled request outcome lat verb n (value_of outcome)
                0 [] w Hok) as [ls Hls].
    rewrite Hls, Z.sub_0_r in Hrun. by injection Hrun as <- _.
  - destruct (batches_rejected request outcome lat verb n f e0 0 [] w)
      as (j & e & ls & Hthrow & _); [lia|done|done|].
    rewrite Hthrow in Hrun. discriminate.
Qed.

(** The copies returned do not depend on the completion order. *)
Lemma batches_any_latency request outcome lat lat' verb n w copies w' :
  batches request outcome lat verb n 0 [] w = (Ok copies, w') →
  ∃ w'', batches request outcome lat' verb n 0 [] w = (Ok copies, w'').
Proof.
  intros Hrun. destruct (batches_Ok_inv _ _ _ _ _ _ _ _ Hrun) as [Hok ->].
  destruct (batches_fulfilled request outcome lat' verb n (value_of outcome)
              0 [] w Hok) as [ls Hls].
  rewrite Hls, Z.sub_0_r. by eexists.
Qed.

Lemma lookup_values outcome n (k : nat) copy :
  (∀ i, 0 ≤ i < n → outcome i = Ok (value_of outcome i)) →
  (value_of outcome <$> seqZ 0 n) !! k = Some copy →
  outcome (Z.of_nat k) = Ok copy.
Proof.
  intros Hok Hk. rewrite list_lookup_fmap in Hk.
  destruct (seqZ 0 n !! k) as [i|] eqn:Hi; [|done].
  apply lookup_seqZ in Hi as [-> Hi]. simpl in Hk. injection Hk as <-.
  rewrite Z.add_0_l. apply Hok. lia.
Qed.

Lemma createCopies_Ok_inv job env target mixEntityClass numCopies w copies w' :
  createCopies job env target mixEntityClass numCopies w = (Ok copies, w') →
  (∀ (k : nat) copy, copies !! k = Some copy →
     created env mixEntityClass (Z.of_nat k) = Ok copy) ∧
  ∀ lat', ∃ w'',
    createCopies job (set_latency lat' env) target mixEntityClass numCopies w
      = (Ok copies, w'').
Proof.
  unfold createCopies. simpl.
  destruct (ToNumber (StringToNumber env) numCopies) as [n|].
  - intros Hrun. split.
    + destruct (batches_Ok_inv _ _ _ _ _ _ _ _ Hrun) as [Hok ->].
      intros k copy. by apply lookup_values.
    + intros lat'. by eapply batches_any_latency.
  - intros [= <- <-]. split; [by intros k copy|]. intros lat'. by eexists.
Qed.

Lemma processExistingCopies_Ok_inv job env target mixEntityClass w outs w' :
  processExistingCopies job env target mixEntityClass w = (Ok outs, w') →
  (∀ (k : nat) o, outs !! k = Some o →
     ∃ copy,
       fetched env mixEntityClass
         (from_option has_copy_relationships [] (data (GET_target env)))
         (Z.of_nat k) = Ok copy ∧
       o = toOutput copy) ∧
  ∀ lat', ∃ w'',
    processExistingCopies job (set_latency lat' env) target mixEntityClass w
      = (Ok outs, w'').
Proof.
  unfold processExistingCopies, mbind, M_bind, send, log. simpl.
  destruct (truthy (error (GET_target env))), (data (GET_target env)) as [e|];
    try (intros Hrun; discriminate). simpl.
  destruct (decide (length (has_copy_relationships e) = 0%nat)) as [Hnil|Hne].
  - intros [= <- <-]. split; [by intros k o|]. intros lat'. by eexists.
  - destruct (batches _ _ _ _ _ _ _ _) as [[copies|err] w1] eqn:Hrun;
      [|intros Hrun'; discriminate].
    intros [= <- <-]. split.
    + destruct (batches_Ok_inv _ _ _ _ _ _ _ _ Hrun) as [Hok ->].
      intros k o Hk. rewrite list_lookup_fmap in Hk.
      destruct (_ !! k) as [copy|] eqn:Hcopy; [|done].
      injection Hk as <-. exists copy. split; [|done].
      by eapply lookup_values.
    + intros lat'.
      change (fetched (set_latency lat' env)) with (fetched env).
      destruct (batches_any_latency _ _ _ lat' _ _ _ _ _ Hrun) as [w'' ->].
      by eexists.
Qed.

(** Without the flag no copy descriptor carries a class. *)
Lemma created_without_class env k copy :
  created env false k = Ok copy → entity_class copy = JUndefined.
Proof.
  unfold created. cbv zeta.
  destruct (truthy (error (POST_entities env k))); [done|].
  destruct (data (POST_entities env k)); [|done]. by intros [= <-].
Qed.

Lemma fetched_without_class env rels k copy :
  fetched env false rels k = Ok copy → entity_class copy = JUndefined.
Proof.
  unfold fetched. cbv zeta.
  destruct (truthy (error (GET_copy _ _ _))); [done|].
  destruct (data (GET_copy _ _ _)); [|done]. by intros [= <-].
Qed.

(** C6 (amended).  The classifier maps each copy to the tagged object
    [{entity_id, entity_class}] if the copy's [entity_class] is truthy
    (present, and not the empty string) and to the bare identifier
    otherwise; and the emitted outputs keep the order of the copies, which
    is the order of their indices.  There is one copy per promise (per
    creation request in generation mode, per fetch of a copy in
    existing-copies mode); when all of them fulfil, the job returns one
    output per promise, output [k] being the classified value of the promise
    with index [k], whatever the order in which the concurrent requests of a
    batch complete. *)
Theorem outputs_are_classified_in_index_order job env target w :
  let promise :=
    if useExistingCopies_of target
    then fetched env (mixEntityClass_of target)
           (from_option has_copy_relationships [] (data (GET_target env)))
    else created env (mixEntityClass_of target) in
  let promises :=
    if useExistingCopies_of target
    then Z.of_nat (length (from_option has_copy_relationships []
                             (data (GET_target env))))
    else iterations env (numCopies_of target) in
  fetchTarget env = Ok target →
  (useExistingCopies_of target = true → is_failed (GET_target env) = false) →
  (∀ i, 0 ≤ i < promises → ∃ copy, promise i = Ok copy) →
  ∃ outs w',
    processJob job env w = (Ok outs, w') ∧
    length outs = Z.to_nat promises ∧
    (∀ (k : nat) copy,
       Z.of_nat k < promises →
       promise (Z.of_nat k) = Ok copy →
       outs !! k = Some (if truthy (entity_class copy)
                         then OutputItem (copy_id copy) (entity_class copy)
                         else OutputId (copy_id copy))) ∧
    (∀ lat', (processJob job (set_latency lat' env) w).1 = Ok outs).
Proof.
  intros promise promises Htarget Htarget2 Hall.
  assert (∀ i, 0 ≤ i < promises → promise i = Ok (value_of promise i)) as Hok.
  { intros i Hi. destruct (Hall i Hi) as [copy Hcopy].
    unfold value_of. by rewrite Hcopy. }
  assert (∀ (k : nat) copy,
            Z.of_nat k < promises → promise (Z.of_nat k) = Ok copy →
            (toOutput <$> (value_of promise <$> seqZ 0 promises)) !! k
              = Some (toOutput copy)) as Hlookup.
  { intros k copy Hk Hcopy.
    rewrite !list_lookup_fmap, lookup_seqZ_lt by lia. simpl.
    rewrite Z.add_0_l. unfold value_of. by rewrite Hcopy. }
  clear Hall. revert Hok Hlookup. unfold promise, promises. clear promise promises.
  destruct (useExistingCopies_of target) eqn:Hmode; intros Hok Hlookup.
  - destruct (not_failed_data _ (Htarget2 eq_refl)) as (e & Hdata & Herr).
    rewrite Hdata in *. simpl in *.
    destruct (processExistingCopies_values job env target (mixEntityClass_of target)
                e _ (logged [(info, "Scatter worker starting")] w) Herr Hdata Hok)
      as [ls Hrun].
    eexists _, _. rewrite (processJob_existing _ _ target) by done.
    split; [exact Hrun|]. split_and!.
    + rewrite !length_fmap, length_seqZ. done.
    + exact Hlookup.
    + intros lat'. rewrite (processJob_existing _ _ target) by done.
      destruct (processExistingCopies_values job (set_latency lat' env) target
                  (mixEntityClass_of target) e _
                  (logged [(info, "Scatter worker starting")] w) Herr Hdata Hok)
        as [ls' ->].
      done.
  - destruct (createCopies_values job env target (mixEntityClass_of target)
                (numCopies_of target) _
                (logged [(info, "Scatter worker starting");
                         (info, "Fetched target entity")] w) Hok)
      as [ls Hrun].
    eexists _, _. rewrite (processJob_generate _ _ target) by done.
    rewrite Hrun. split; [reflexivity|]. split_and!.
    + rewrite !length_fmap, length_seqZ. done.
    + exact Hlookup.
    + intros lat'. rewrite (processJob_generate _ _ target) by done.
      destruct (createCopies_values job (set_latency lat' env) target
                  (mixEntityClass_of target) (numCopies_of target) _
                  (logged [(info, "Scatter worker starting");
                           (info, "Fetched target entity")] w) Hok)
        as [ls' ->].
      done.
Qed.

Lemma outputs_are_classified_in_index_order_witness :
  let props : gmap string jsval :=
    {[ "copy_count" := JInt 45; "mix_entity_class" := JBool true ]} in
  fetchTarget (ex_env props) = Ok (ex_target props) ∧
  (useExistingCopies_of (ex_target props) = true →
   is_failed (GET_target (ex_env props)) = false) ∧
  (∀ i, 0 ≤ i < 45 → ∃ copy, created (ex_env props) true i = Ok copy) ∧
  ∃ outs w',
    processJob ex_job (ex_env props) start = (Ok outs, w') ∧
    length outs = 45%nat ∧
    outs !! 21%nat = Some (OutputItem "c21" (JStr "mention")) ∧
    (processJob ex_job (set_latency (λ i, Z.to_nat i) (ex_env props)) start).1
      = Ok outs.
Proof.
  intros props.
  assert (fetchTarget (ex_env props) = Ok (ex_target props)) as H0 by reflexivity.
  assert (useExistingCopies_of (ex_target props) = true →
          is_failed (GET_target (ex_env props)) = false) as H1
    by (intros _; reflexivity).
  assert (∀ i, 0 ≤ i < 45 → ∃ copy, created (ex_env props) true i = Ok copy) as H2
    by (intros i _; eexists; reflexivity).
  split_and!; [exact H0|exact H1|exact H2|].
  destruct (outputs_are_classified_in_index_order
              ex_job (ex_env props) (ex_target props) start H0 H1 H2)
    as (outs & w' & Hrun & Hlen & Hout & Hlat).
  exists outs, w'. split_and!; [exact Hrun|exact Hlen| |exact (Hlat _)].
  exact (Hout 21%nat {| copy_id := "c21"; entity_class := JStr "mention" |}
           eq_refl eq_refl).
Defined.

(** C6 as stated fails: a copy whose [entity_class] is present but empty is
    emitted as a bare identifier.  The copy ["p1"] of the example was stored
    with [entity_class = ""]; the reader hands that on, and the classifier
    drops it. *)
Lemma present_entity_class_counterexample :
  let env := ex_env ex_existing_props in
  fetched env true (has_copy_relationships (ex_entity ex_existing_props)) 1
    = Ok {| copy_id := "p1"; entity_class := JStr "" |} ∧
  JStr "" ≠ JUndefined ∧
  toOutput {| copy_id := "p1"; entity_class := JStr "" |} = OutputId "p1" ∧
  (processJob ex_job env start).1
    = Ok [OutputItem "p0" (JStr "canonical"); OutputId "p1";
          OutputItem "p2" (JStr "mention")].
Proof.
  simpl. split_and!; [reflexivity|discriminate|reflexivity|].
  vm_compute. reflexivity.
Qed.

(** ** The scenarios of the specification, run *)

(** A target with [copy_count = 3] and no flag: three plain identifiers, and
    one conditional update that adds three [has_copy] relationships. *)
Example scenario_three_copies :
  let run := processJob ex_job (ex_env {[ "copy_count" := JInt 3 ]}) start in
  run.1 = Ok [OutputId "c0"; OutputId "c1"; OutputId "c2"] ∧
  last (calls run.2) =
    Some (PUT "T" "tip-1"
            [ {| predicate := "has_copy"; peer := "c0"; peer_type := "test_entity";
                 peer_label := JStr "Entity - Copy 1" |};
              {| predicate := "has_copy"; peer := "c1"; peer_type := "test_entity";
                 peer_label := JStr "Entity - Copy 2" |};
              {| predicate := "has_copy"; peer := "c2"; peer_type := "test_entity";
                 peer_label := JStr "Entity - Copy 3" |} ]).
Proof. split; vm_compute; reflexivity. Qed.

(** A target with [copy_count = 6] and [mix_entity_class]: six tagged
    outputs, alternating. *)
Example scenario_mixed_classes :
  (processJob ex_job
     (ex_env {[ "copy_count" := JInt 6; "mix_entity_class" := JBool true ]})
     start).1 =
    Ok [OutputItem "c0" (JStr "canonical"); OutputItem "c1" (JStr "mention");
        OutputItem "c2" (JStr "canonical"); OutputItem "c3" (JStr "mention");
        OutputItem "c4" (JStr "canonical"); OutputItem "c5" (JStr "mention")].
Proof. vm_compute. reflexivity. Qed.

(** A conflict on the conditional update: the job still returns its three
    outputs, and the log says that the back-link failed. *)
Example scenario_conflict :
  let env := set_backlink (fulfilled "tip-1") (JObj "{}")
               (ex_env {[ "copy_count" := JInt 3 ]}) in
  let run := processJob ex_job env start in
  run.1 = Ok [OutputId "c0"; OutputId "c1"; OutputId "c2"] ∧
  logs run.2 =
    [ (info, "Scatter worker starting"); (info, "Fetched target entity");
      (info, "Created batch 1");
      (info, "Failed to add has_copy relationships to original");
      (success, "Scatter complete") ].
Proof. split; vm_compute; reflexivity. Qed.

(** An update that fails with a falsy error value (the empty string, for
    one) passes the guard [if (updateError)]: nothing is logged. *)
Example scenario_silent_conflict :
  let env := set_backlink (fulfilled "tip-1") (JStr "")
               (ex_env {[ "copy_count" := JInt 3 ]}) in
  let run := processJob ex_job env start in
  run.1 = Ok [OutputId "c0"; OutputId "c1"; OutputId "c2"] ∧
  logs run.2 =
    [ (info, "Scatter worker starting"); (info, "Fetched target entity");
      (info, "Created batch 1"); (success, "Scatter complete") ].
Proof. split; vm_compute; reflexivity. Qed.

(** A creation answered with an id and a falsy error value passes the guard
    [if (error || !data)]: the copy counts as created. *)
Example scenario_falsy_error :
  let env := ex_env {[ "copy_count" := JInt 1 ]} in
  let env' :=
    {| fetchTarget := fetchTarget env;
       POST_entities := λ i, {| data := Some (ex_ids i); error := JInt 0 |};
       GET_tip := GET_tip env; PUT_entity := PUT_entity env;
       GET_target := GET_target env; GET_copy := GET_copy env;
       latency := latency env; now := now env;
       StringToNumber := StringToNumber env;
       NumberToString := NumberToString env |} in
  is_failed (POST_entities env' 0) = false ∧
  (processJob ex_job env' start).1 = Ok [OutputId "c0"].
Proof. split; vm_compute; reflexivity. Qed.

(** A job of 45 copies in which the creation of copy 26 fails: the job
    throws that failure after two batches, with 40 creation requests sent and
    nothing else. *)
Example scenario_failed_creation :
  let run := processJob ex_job (ex_env_failing {[ "copy_count" := JInt 45 ]}) start in
  run.1 = Throw "Failed to create copy 26: {}" ∧
  length (posted (calls run.2)) = 40%nat ∧
  length (calls run.2) = 40%nat ∧
  logs run.2 =
    [ (info, "Scatter worker starting"); (info, "Fetched target entity");
      (info, "Created batch 1") ].
Proof. split_and!; vm_compute; reflexivity. Qed.

(** A fractional count: [copy_count = 2.5] makes the loop run for
    [i = 0, 1, 2]. *)
Example scenario_fractional_count :
  (processJob ex_job (ex_env {[ "copy_count" := JNum (5 # 2)%Q ]}) start).1
    = Ok [OutputId "c0"; OutputId "c1"; OutputId "c2"].
Proof. vm_compute. reflexivity. Qed.

(** A negative count: the loop does not run, and the job succeeds with no
    output. *)
Example scenario_negative_count :
  (processJob ex_job (ex_env {[ "copy_count" := JInt (-2) ]}) start).1 = Ok [].
Proof. vm_compute. reflexivity. Qed.

(** * Further properties of the worker *)

(** ** What any run sends *)

(** Whatever the store answers, the batch loop sends the requests of an
    initial segment of the index range, in index order, and nothing else. *)
Lemma batches_calls request outcome lat verb n w :
  ∃ m, 0 ≤ m ≤ Z.max 0 (Qceiling n) ∧
    calls (batches request outcome lat verb n 0 [] w).2
      = calls w ++ (request <$> seqZ 0 m).
Proof.
  destruct (decide (0 < Qceiling n)) as [Hn|Hn].
  - destruct (first_rejection outcome 0 (Z.to_nat (Qceiling n)))
      as [Hall|(f & e0 & Hf & He0 & Hbefore)].
    + destruct (batches_fulfilled request outcome lat verb n (value_of outcome)
                  0 [] w) as [ls ->].
      { intros i Hi. destruct (Hall i) as [v Hv]; [lia|].
        unfold value_of. by rewrite Hv. }
      exists (Qceiling n). rewrite Z.sub_0_r. split; [lia|done].
    + destruct (batches_rejected request outcome lat verb n f e0 0 [] w)
        as (j & e & ls & -> & Hj & _); [lia|done|done|].
      eexists. split; [|simpl; by rewrite Z.sub_0_r]. lia.
  - rewrite batches_done by done. exists 0. split; [lia|].
    simpl. by rewrite app_nil_r.
Qed.

Lemma createCopies_calls job env target mixEntityClass numCopies w :
  ∃ m, 0 ≤ m ∧
    calls (createCopies job env target mixEntityClass numCopies w).2
      = calls w ++
        (POST <$> (copyBody job env target mixEntityClass numCopies <$> seqZ 0 m)).
Proof.
  unfold createCopies.
  destruct (ToNumber (StringToNumber env) numCopies) as [n|].
  - destruct (batches_calls
                (λ i, POST (copyBody job env target mixEntityClass numCopies i))
                (created env mixEntityClass) (latency env) "Created" n w)
      as (m & Hm & ->).
    exists m. split; [lia|]. by rewrite <-list_fmap_compose.
  - exists 0. split; [done|]. simpl. by rewrite app_nil_r.
Qed.

Lemma backLink_calls env target copies w :
  calls (backLink env target copies w).2 =
    calls w ++ GET_entity_tip (target_id target) ::
      match truthy (error (GET_tip env)), data (GET_tip env) with
      | false, Some cid =>
          [PUT (target_id target) cid
             (imap (λ i copy,
                {| predicate := "has_copy";
                   peer := copy_id copy;
                   peer_type := target_type target;
                   peer_label := JStr (copyLabel env target (Z.of_nat i)) |})
                copies)]
      | _, _ => []
      end.
Proof.
  unfold backLink, mbind, M_bind, send, log. simpl.
  destruct (truthy (error (GET_tip env))), (data (GET_tip env)); simpl; try done.
  destruct (truthy (PUT_entity env)); simpl; by rewrite <-app_assoc.
Qed.

Lemma processExistingCopies_calls job env target mixEntityClass w :
  ∃ cs, calls (processExistingCopies job env target mixEntityClass w).2
          = calls w ++ cs ∧
        Forall is_GET_entity cs.
Proof.
  unfold processExistingCopies, mbind, M_bind, send, log, throw. simpl.
  destruct (truthy (error (GET_target env))), (data (GET_target env)) as [e|];
    simpl; try (by exists [GET_entity (target_id target)]; split;
                  [|repeat constructor]).
  destruct (decide (length (has_copy_relationships e) = 0%nat)) as [Hnil|Hne].
  - exists [GET_entity (target_id target)]. split; [done|repeat constructor].
  - destruct (batches_calls
                (λ i, GET_entity (peer_at (has_copy_relationships e) i))
                (fetched env mixEntityClass (has_copy_relationships e))
                (latency env) "Fetched"
                (inject_Z (Z.of_nat (length (has_copy_relationships e))))
                (logged [(info, "Using existing copies")]
                   (sent [GET_entity (target_id target)] w)))
      as (m & Hm & Hcalls).
    destruct (batches _ _ _ _ _ _ _ _) as [[copies|err] w1]; simpl in *.
    + rewrite Hcalls, <-app_assoc. eexists. split; [done|].
      constructor; [done|]. apply Forall_fmap, Forall_forall. by intros i _.
    + rewrite Hcalls, <-app_assoc. eexists. split; [done|].
      constructor; [done|]. apply Forall_fmap, Forall_forall. by intros i _.
Qed.

(** The creation requests of any run of the job, successful or not: the
    bodies of an initial segment of the indices, in index order. *)
Lemma processJob_posted job env target :
  fetchTarget env = Ok target →
  ∃ m, 0 ≤ m ∧
    (0 < m → useExistingCopies_of target = false) ∧
    posted (calls (processJob job env start).2) =
      copyBody job env target (mixEntityClass_of target) (numCopies_of target)
        <$> seqZ 0 m.
Proof.
  intros Htarget. destruct (useExistingCopies_of target) eqn:Hmode.
  - exists 0. split; [done|]. split; [lia|].
    rewrite (processJob_existing _ _ target) by done.
    destruct (processExistingCopies_calls job env target (mixEntityClass_of target)
                (logged [(info, "Scatter worker starting")] start))
      as (cs & -> & Hcs).
    simpl. by apply posted_GET_entity.
  - rewrite (processJob_generate _ _ target) by done.
    destruct (createCopies_calls job env target (mixEntityClass_of target)
                (numCopies_of target)
                (logged [(info, "Scatter worker starting");
                         (info, "Fetched target entity")] start))
      as (m & Hm & Hcalls).
    exists m. split; [done|]. split; [done|].
    destruct (createCopies _ _ _ _ _ _) as [[copies|err] w1]; simpl in *.
    + destruct (backLink_runs env target copies w1) as (w2 & -> & _ & Hp & _).
      simpl. rewrite Hp, Hcalls. simpl. apply posted_POST.
    + rewrite Hcalls. simpl. apply posted_POST.
Qed.

(** The [k]-th creation request of a run is that of index [k], and is sent
    in generation mode only. *)
Lemma processJob_posted_lookup job env target (k : nat) body :
  fetchTarget env = Ok target →
  posted (calls (processJob job env start).2) !! k = Some body →
  body = copyBody job env target (mixEntityClass_of target) (numCopies_of target)
           (Z.of_nat k) ∧
  useExistingCopies_of target = false.
Proof.
  intros Htarget Hbody.
  destruct (processJob_posted job env target Htarget) as (m & _ & Hm & Hposted).
  rewrite Hposted, list_lookup_fmap in Hbody.
  destruct (seqZ 0 m !! k) as [i|] eqn:Hi; [|done].
  apply lookup_seqZ in Hi as [-> Hi]. rewrite Z.add_0_l in Hbody.
  injection Hbody as <-. split; [done|]. apply Hm. lia.
Qed.

(** A copy keeps the properties of the target that the worker does not
    set. *)
Lemma copyBody_keeps job env target mixEntityClass numCopies i key :
  key ∉ stamped_keys →
  body_properties (copyBody job env target mixEntityClass numCopies i) !! key
    = target_properties target !! key.
Proof.
  intros Hkey. unfold stamped_keys in Hkey.
  rewrite !not_elem_of_cons in Hkey.
  destruct Hkey as (? & ? & ? & ? & ? & ? & ? & _).
  unfold copyBody, spread_entity_class. simpl.
  destruct (truthy _); by simplify_map_eq.
Qed.

(** X1.  Every copy that the job asks the store to create, in any run, is of
    the target's type, goes to the job's target collection, names the
    target as [source_entity] and the agent as [created_by], has the index
    of its request as [copy_index] and the job's copy count as
    [copy_total], and keeps every other property of the target: only the
    keys of [stamped_keys] can differ from the target's. *)
Theorem copies_keep_the_targets_other_properties
    job env target (k : nat) body :
  fetchTarget env = Ok target →
  posted (calls (processJob job env start).2) !! k = Some body →
  body_type body = target_type target ∧
  body_collection body = target_collection job ∧
  body_properties body !! "copy_index" = Some (JInt (Z.of_nat k)) ∧
  body_properties body !! "copy_total" = Some (numCopies_of target) ∧
  body_properties body !! "source_entity" = Some (JStr (target_id target)) ∧
  body_properties body !! "created_by" = Some (JStr (agentId job)) ∧
  ∀ key, key ∉ stamped_keys →
    body_properties body !! key = target_properties target !! key.
Proof.
  intros Htarget Hbody.
  destruct (processJob_posted_lookup job env target k body Htarget Hbody)
    as [-> _].
  split_and!; try done.
  - apply copyBody_copy_index.
  - apply copyBody_copy_total.
  - unfold copyBody, spread_entity_class. simpl.
    destruct (truthy _); by simplify_map_eq.
  - unfold copyBody, spread_entity_class. simpl.
    destruct (truthy _); by simplify_map_eq.
  - intros key Hkey. by apply copyBody_keeps.
Qed.

Lemma copies_keep_the_targets_other_properties_witness :
  let props : gmap string jsval :=
    {[ "copy_count" := JInt 3; "content" := JStr "some text";
       "copy_index" := JInt 7 ]} in
  let body := copyBody ex_job (ex_env props) (ex_target props) false (JInt 3) 1 in
  fetchTarget (ex_env props) = Ok (ex_target props) ∧
  posted (calls (processJob ex_job (ex_env props) start).2) !! 1%nat = Some body ∧
  body_properties body !! "copy_index" = Some (JInt 1) ∧
  body_properties body !! "content" = Some (JStr "some text") ∧
  body_properties body !! "copy_count" = Some (JInt 3).
Proof.
  intros props body.
  assert (fetchTarget (ex_env props) = Ok (ex_target props)) as H0 by reflexivity.
  assert (posted (calls (processJob ex_job (ex_env props) start).2) !! 1%nat
          = Some body) as H1 by (vm_compute; reflexivity).
  split; [exact H0|]. split; [exact H1|].
  destruct (copies_keep_the_targets_other_properties
              ex_job (ex_env props) (ex_target props) 1 body H0 H1)
    as (_ & _ & Hindex & _ & _ & _ & Hkeep).
  assert (("content" ∉ stamped_keys) ∧ ("copy_count" ∉ stamped_keys))
    as [Hcontent Hcount].
  { split; apply (bool_decide_unpack _); vm_compute; exact I. }
  split; [exact Hindex|].
  split; [exact (Hkeep _ Hcontent)|exact (Hkeep _ Hcount)].
Defined.



(** When the engine returns, it has sent one creation request per copy
    returned. *)
Lemma createCopies_Ok_calls job env target mixEntityClass numCopies w copies w' :
  createCopies job env target mixEntityClass numCopies w = (Ok copies, w') →
  calls w' = calls w ++
    (POST <$> (copyBody job env target mixEntityClass numCopies
                 <$> seqZ 0 (Z.of_nat (length copies)))).
Proof.
  unfold createCopies.
  destruct (ToNumber (StringToNumber env) numCopies) as [n|].
  - intros Hrun. destruct (batches_Ok_inv _ _ _ _ _ _ _ _ Hrun) as [Hok ->].
    destruct (batches_fulfilled
                (λ i, POST (copyBody job env target mixEntityClass numCopies i))
                (created env mixEntityClass) (latency env) "Created" n
                (value_of (created env mixEntityClass)) 0 [] w)
      as [ls Hls]; [by intros; apply Hok; lia|].
    rewrite Hrun in Hls. injection Hls as Hw. subst w'. simpl.
    rewrite Z.sub_0_r, length_fmap, length_seqZ, <-list_fmap_compose.
    destruct (decide (0 ≤ Qceiling n)) as [Hn|Hn].
    + by rewrite Z2Nat.id by done.
    + rewrite (seqZ_nil 0 (Qceiling n)) by lia. rewrite seqZ_nil by lia. done.
  - intros [= <- <-]. simpl. by rewrite app_nil_r.
Qed.

(** X3.  The job updates the target at most once, as its last request, and
    never without the tip: whenever a run sends the conditional update, the
    tip read just before it succeeded and the update expects the tip it
    returned; every request before the two is a creation request; the job
    succeeds; and the [has_copy] relationships that the update adds name
    the job's outputs, in order, each with the label given to that copy. *)
Theorem the_target_is_updated_last_under_its_tip
    job env (k : nat) tid tip rels :
  calls (processJob job env start).2 !! k = Some (PUT tid tip rels) →
  ∃ target bodies outs,
    fetchTarget env = Ok target ∧
    tid = target_id target ∧
    is_failed (GET_tip env) = false ∧
    data (GET_tip env) = Some tip ∧
    calls (processJob job env start).2 =
      (POST <$> bodies) ++ [GET_entity_tip tid; PUT tid tip rels] ∧
    (processJob job env start).1 = Ok outs ∧
    peer <$> rels = output_id <$> outs ∧
    peer_label <$> rels = (λ b, get (body_properties b) "label") <$> bodies ∧
    Forall (λ r, predicate r = "has_copy" ∧ peer_type r = target_type target) rels.
Proof.
  intros Hk. destruct (fetchTarget env) as [target|e] eqn:Htarget;
    [|by rewrite (processJob_no_target _ _ e) in Hk].
  destruct (useExistingCopies_of target) eqn:Hmode.
  { rewrite (processJob_existing _ _ target) in Hk by done.
    destruct (processExistingCopies_calls job env target (mixEntityClass_of target)
                (logged [(info, "Scatter worker starting")] start))
      as (cs & Hcs & Hget).
    rewrite Hcs in Hk. simpl in Hk.
    rewrite Forall_forall in Hget.
    by apply list_elem_of_lookup_2, Hget in Hk. }
  revert Hk. rewrite (processJob_generate _ _ target) by done.
  destruct (createCopies_calls job env target (mixEntityClass_of target)
              (numCopies_of target)
              (logged [(info, "Scatter worker starting");
                       (info, "Fetched target entity")] start))
    as (m & Hm & Hcalls).
  destruct (createCopies _ _ _ _ _ _) as [[copies|err] w1] eqn:Hrun;
    simpl in Hcalls |- *.
  - destruct (createCopies_Ok_inv _ _ _ _ _ _ _ _ Hrun) as [Hcopies _].
    clear m Hm Hcalls. pose proof (createCopies_Ok_calls _ _ _ _ _ _ _ _ Hrun) as Hcalls.
    simpl in Hcalls.
    rewrite backLink_calls, Hcalls. simpl.
    intros Hk. apply lookup_app_Some in Hk as [Hk|[_ Hk]].
    { rewrite list_lookup_fmap in Hk. by destruct (_ !! k). }
    destruct (k - _)%nat as [|[|k']]; [done| |].
    2:{ destruct (truthy (error (GET_tip env))), (data (GET_tip env)); done. }
    unfold is_failed.
    destruct (truthy (error (GET_tip env))) eqn:Herr,
             (data (GET_tip env)) as [cid|] eqn:Hdata; try done.
    simpl in Hk. injection Hk as <- <- <-.
    eexists target, _, (toOutput <$> copies).
    split_and!; try done.
    + apply list_eq. intros i.
      rewrite !list_lookup_fmap, list_lookup_imap.
      destruct (copies !! i) as [copy|]; [|done]. simpl.
      unfold toOutput. by destruct (truthy (entity_class copy)).
    + rewrite fmap_imap.
      rewrite <-list_fmap_compose.
      apply list_eq. intros i. rewrite list_lookup_imap, list_lookup_fmap.
      destruct (copies !! i) as [copy|] eqn:Hcopy; simpl.
      * rewrite lookup_seqZ_lt by (apply lookup_lt_Some in Hcopy; lia). simpl.
        rewrite Z.add_0_l. unfold get.
        pose proof (copyBody_label job env target (mixEntityClass_of target)
                      (numCopies_of target) (Z.of_nat i)) as Hlabel.
        simpl in Hlabel. by rewrite Hlabel.
      * rewrite lookup_seqZ_ge; [done|]. apply lookup_ge_None in Hcopy. lia.
    + apply Forall_forall. intros r Hr.
      apply list_elem_of_lookup in Hr as [i Hi].
      rewrite list_lookup_imap in Hi.
      destruct (copies !! i); [|done]. by injection Hi as <-.
  - rewrite Hcalls. simpl. intros Hk.
    rewrite list_lookup_fmap in Hk. by destruct (_ !! k).
Qed.

Lemma the_target_is_updated_last_under_its_tip_witness :
  let env := ex_env {[ "copy_count" := JInt 2 ]} in
  let rels :=
    [ {| predicate := "has_copy"; peer := "c0"; peer_type := "test_entity";
         peer_label := JStr "Entity - Copy 1" |};
      {| predicate := "has_copy"; peer := "c1"; peer_type := "test_entity";
         peer_label := JStr "Entity - Copy 2" |} ] in
  calls (processJob ex_job env start).2 !! 3%nat = Some (PUT "T" "tip-1" rels) ∧
  ∃ outs,
    (processJob ex_job env start).1 = Ok outs ∧
    peer <$> rels = output_id <$> outs.
Proof.
  intros env rels.
  assert (calls (processJob ex_job env start).2 !! 3%nat
          = Some (PUT "T" "tip-1" rels)) as H0 by (vm_compute; reflexivity).
  split; [exact H0|].
  destruct (the_target_is_updated_last_under_its_tip ex_job env 3 "T" "tip-1" rels H0)
    as (target & bodies & outs & _ & _ & _ & _ & _ & Hrun & Hpeers & _).
  exists outs. split; [exact Hrun|exact Hpeers].
Defined.

(** ** The outputs *)

(** X4.  Without the [mix_entity_class] flag the job never emits a routing
    object: in either mode, whatever [entity_class] the target or the
    fetched copies have, every output is a bare identifier. *)
Theorem without_the_flag_every_output_is_bare job env target w outs w' :
  fetchTarget env = Ok target →
  mixEntityClass_of target = false →
  processJob job env w = (Ok outs, w') →
  Forall (λ o, is_bare o = true) outs.
Proof.
  intros Htarget Hmix Hrun. apply Forall_forall. intros o Ho.
  apply list_elem_of_lookup in Ho as [k Hk].
  destruct (useExistingCopies_of target) eqn:Hmode.
  - rewrite (processJob_existing _ _ target) in Hrun by done.
    rewrite Hmix in Hrun.
    destruct (processExistingCopies_Ok_inv _ _ _ _ _ _ _ Hrun) as [Hout _].
    destruct (Hout k o Hk) as (copy & Hcopy & ->).
    unfold toOutput. by rewrite (fetched_without_class _ _ _ _ Hcopy).
  - rewrite (processJob_generate _ _ target) in Hrun by done.
    rewrite Hmix in Hrun.
    destruct (createCopies _ _ _ _ _ _) as [[copies|err] w1] eqn:Hcopies;
      [|discriminate].
    injection Hrun as <- _.
    destruct (createCopies_Ok_inv _ _ _ _ _ _ _ _ Hcopies) as [Hout _].
    rewrite list_lookup_fmap in Hk.
    destruct (copies !! k) as [copy|] eqn:Hcopy; [|done]. injection Hk as <-.
    unfold toOutput. by rewrite (created_without_class _ _ _ (Hout _ _ Hcopy)).
Qed.

Lemma without_the_flag_every_output_is_bare_witness :
  let props : gmap string jsval :=
    {[ "use_existing_copies" := JBool true ]} in
  fetchTarget (ex_env props) = Ok (ex_target props) ∧
  mixEntityClass_of (ex_target props) = false ∧
  processJob ex_job (ex_env props) start
    = (Ok [OutputId "p0"; OutputId "p1"; OutputId "p2"],
       (processJob ex_job (ex_env props) start).2) ∧
  Forall (λ o, is_bare o = true) [OutputId "p0"; OutputId "p1"; OutputId "p2"].
Proof.
  intros props.
  assert (fetchTarget (ex_env props) = Ok (ex_target props)) as H0 by reflexivity.
  assert (mixEntityClass_of (ex_target props) = false) as H1 by reflexivity.
  assert (processJob ex_job (ex_env props) start
          = (Ok [OutputId "p0"; OutputId "p1"; OutputId "p2"],
             (processJob ex_job (ex_env props) start).2)) as H2
    by (vm_compute; reflexivity).
  split_and!; [exact H0|exact H1|exact H2|].
  exact (without_the_flag_every_output_is_bare
           ex_job (ex_env props) (ex_target props) start _ _ H0 H1 H2).
Defined.

(** The parity of the indices below [n]. *)
Lemma count_even_indices {A} (f : Z → A) (P : A → bool) (n : nat) :
  (∀ i, 0 ≤ i → P (f i) = Z.even i) →
  length (filter (λ a, P a = true) (f <$> seqZ 0 (Z.of_nat n)))
    = Z.to_nat ((Z.of_nat n + 1) / 2).
Proof.
  intros HP. induction n as [|n IH]; [done|].
  rewrite Nat2Z.inj_succ, <-Z.add_1_r.
  rewrite seqZ_app by lia. rewrite fmap_app, filter_app, length_app, IH.
  rewrite Z.add_0_l. replace (seqZ (Z.of_nat n) 1) with [Z.of_nat n] by done.
  simpl. rewrite filter_cons, filter_nil. rewrite HP by lia.
  destruct (Z.even (Z.of_nat n)) eqn:Hpar.
  - rewrite decide_True by done. simpl.
    apply Z.even_spec in Hpar as [h Hh].
    zify. Z.div_mod_to_equations. lia.
  - rewrite decide_False by done. simpl.
    rewrite <-Z.negb_odd in Hpar.
    apply negb_false_iff, Z.odd_spec in Hpar as [h Hh].
    zify. Z.div_mod_to_equations. lia.
Qed.

Lemma count_odd_indices {A} (f : Z → A) (P : A → bool) (n : nat) :
  (∀ i, 0 ≤ i → P (f i) = negb (Z.even i)) →
  length (filter (λ a, P a = true) (f <$> seqZ 0 (Z.of_nat n)))
    = Z.to_nat (Z.of_nat n / 2).
Proof.
  intros HP. induction n as [|n IH]; [done|].
  rewrite Nat2Z.inj_succ, <-Z.add_1_r.
  rewrite seqZ_app by lia. rewrite fmap_app, filter_app, length_app, IH.
  rewrite Z.add_0_l. replace (seqZ (Z.of_nat n) 1) with [Z.of_nat n] by done.
  simpl. rewrite filter_cons, filter_nil. rewrite HP by lia.
  destruct (Z.even (Z.of_nat n)) eqn:Hpar.
  - rewrite decide_False by done. simpl.
    apply Z.even_spec in Hpar as [h Hh].
    zify. Z.div_mod_to_equations. lia.
  - rewrite decide_True by done. simpl.
    rewrite <-Z.negb_odd in Hpar.
    apply negb_false_iff, Z.odd_spec in Hpar as [h Hh].
    zify. Z.div_mod_to_equations. lia.
Qed.

(** X5.  With the [mix_entity_class] flag and a store that creates every
    copy, every output of a job of [N] copies is a routing object, and the
    two classes split the outputs evenly: [(N + 1) / 2] are "canonical" and
    [N / 2] are "mention". *)
Theorem mixed_classes_split_the_outputs_evenly job env target ids (N : Z) :
  fetchTarget env = Ok target →
  useExistingCopies_of target = false →
  mixEntityClass_of target = true →
  numCopies_of target = JInt N →
  0 ≤ N →
  (∀ i, 0 ≤ i → POST_entities env i = fulfilled (ids i)) →
  ∃ outs w',
    processJob job env start = (Ok outs, w') ∧
    Forall (λ o, is_bare o = false) outs ∧
    length (filter (λ o, has_class "canonical" o = true) outs)
      = Z.to_nat ((N + 1) / 2) ∧
    length (filter (λ o, has_class "mention" o = true) outs) = Z.to_nat (N / 2).
Proof.
  intros Htarget Hmode Hmix HN Hpos Hok.
  rewrite (processJob_generate _ _ target) by done. rewrite HN, Hmix.
  edestruct (createCopies_whole job env target true N ids)
    as [ls ->]; [by intros; apply Hok; lia|].
  eexists _, _. split; [done|].
  set (item := λ i, OutputItem (ids i)
                      (JStr (if Z.even i then "canonical" else "mention"))).
  assert (toOutput <$> ((λ i, {| copy_id := ids i;
                                 entity_class := entityClass true i |})
                          <$> seqZ 0 N)
          = item <$> seqZ 0 N) as ->.
  { rewrite <-list_fmap_compose. apply list_fmap_ext. intros k i Hk.
    apply lookup_seqZ in Hk. unfold toOutput, compose. cbn [entity_class copy_id].
    rewrite entityClass_truthy. by rewrite entityClass_parity by lia. }
  rewrite <-(Z2Nat.id N) by done. split_and!.
  - apply Forall_fmap, Forall_forall. by intros i _.
  - rewrite (count_even_indices item (has_class "canonical")); [done|].
    intros i _. unfold item. simpl. by destruct (Z.even i).
  - rewrite (count_odd_indices item (has_class "mention")); [done|].
    intros i _. unfold item. simpl. by destruct (Z.even i).
Qed.

Lemma mixed_classes_split_the_outputs_evenly_witness :
  let props : gmap string jsval :=
    {[ "copy_count" := JInt 7; "mix_entity_class" := JBool true ]} in
  fetchTarget (ex_env props) = Ok (ex_target props) ∧
  useExistingCopies_of (ex_target props) = false ∧
  mixEntityClass_of (ex_target props) = true ∧
  numCopies_of (ex_target props) = JInt 7 ∧
  0 ≤ 7 ∧
  (∀ i, 0 ≤ i → POST_entities (ex_env props) i = fulfilled (ex_ids i)) ∧
  ∃ outs w',
    processJob ex_job (ex_env props) start = (Ok outs, w') ∧
    length (filter (λ o, has_class "canonical" o = true) outs) = 4%nat ∧
    length (filter (λ o, has_class "mention" o = true) outs) = 3%nat.
Proof.
  intros props.
  assert (fetchTarget (ex_env props) = Ok (ex_target props)) as H0 by reflexivity.
  assert (useExistingCopies_of (ex_target props) = false) as H1 by reflexivity.
  assert (mixEntityClass_of (ex_target props) = true) as H2 by reflexivity.
  assert (numCopies_of (ex_target props) = JInt 7) as H3 by reflexivity.
  assert (0 ≤ 7) as H4 by lia.
  assert (∀ i, 0 ≤ i → POST_entities (ex_env props) i = fulfilled (ex_ids i))
    as H5 by (intros i _; reflexivity).
  split_and!; [exact H0|exact H1|exact H2|exact H3|exact H4|exact H5|].
  destruct (mixed_classes_split_the_outputs_evenly
              ex_job (ex_env props) (ex_target props) ex_ids 7 H0 H1 H2 H3 H4 H5)
    as (outs & w' & Hrun & _ & Hcan & Hmen).
  exists outs, w'. split_and!; [exact Hrun|exact Hcan|exact Hmen].
Defined.

(** ** The log *)

Lemma batch_log_done verb n batchStart :
  ¬ batchStart < n → batch_log verb n batchStart = [].
Proof.
  intros Hge. unfold batch_log. rewrite seqZ_nil; [done|].
  unfold BATCH_SIZE. Z.div_mod_to_equations. lia.
Qed.

Lemma batch_log_step verb n batchStart :
  batchStart < n →
  batch_log verb n batchStart =
    (info, verb +:+ " batch " +:+ pretty (batchStart / BATCH_SIZE + 1))
      :: batch_log verb n (batchStart + BATCH_SIZE).
Proof.
  intros Hlt. unfold batch_log.
  assert ((n - batchStart + BATCH_SIZE - 1) / BATCH_SIZE
          = 1 + (n - (batchStart + BATCH_SIZE) + BATCH_SIZE - 1) / BATCH_SIZE) as ->.
  { unfold BATCH_SIZE. Z.div_mod_to_equations. lia. }
  assert (0 ≤ (n - (batchStart + BATCH_SIZE) + BATCH_SIZE - 1) / BATCH_SIZE) as Hq.
  { unfold BATCH_SIZE. Z.div_mod_to_equations. lia. }
  rewrite seqZ_app by lia. rewrite fmap_app. simpl.
  replace (seqZ 0 1) with [0] by done. simpl. rewrite Z.add_0_r. f_equal.
  rewrite <-(fmap_add_seqZ 1 0), <-list_fmap_compose.
  apply list_fmap_ext. intros k b _. simpl. do 4 f_equal.
  unfold BATCH_SIZE. Z.div_mod_to_equations. lia.
Qed.

(** While every request succeeds, the loop logs one entry per batch. *)
Lemma batches_fulfilled_logs request outcome lat verb n value batchStart copies w :
  (∀ i, batchStart ≤ i < Qceiling n → outcome i = Ok (value i)) →
  logs (batches request outcome lat verb n batchStart copies w).2
    = logs w ++ batch_log verb (Qceiling n) batchStart.
Proof.
  remember (Z.to_nat (Qceiling n - batchStart)) as m eqn:Hm.
  revert batchStart copies w Hm.
  induction m as [m IH] using lt_wf_ind. intros batchStart copies w Hm Hok.
  destruct (decide (batchStart < Qceiling n)) as [Hlt|Hge].
  - rewrite batches_step by done. cbv zeta.
    set (batchEnd := Z.min (batchStart + BATCH_SIZE) (Qceiling n)).
    assert (outcome <$> seqZ batchStart (batchEnd - batchStart)
            = Ok <$> (value <$> seqZ batchStart (batchEnd - batchStart)))
      as ->.
    { rewrite <-list_fmap_compose. apply list_fmap_ext.
      intros k i Hi. apply lookup_seqZ in Hi. simpl. apply Hok.
      unfold batchEnd, BATCH_SIZE in *. lia. }
    rewrite Promise_all_fulfilled.
    rewrite (IH (Z.to_nat (Qceiling n - (batchStart + BATCH_SIZE))));
      [|unfold BATCH_SIZE; lia|done
       |intros i Hi; apply Hok; unfold BATCH_SIZE in *; lia].
    simpl. rewrite (batch_log_step verb (Qceiling n) batchStart) by done.
    by rewrite <-app_assoc.
  - rewrite batches_done by done. rewrite batch_log_done by done.
    simpl. by rewrite app_nil_r.
Qed.

(** X6.  The log of a job that creates [N] copies, in full: the two opening
    entries, one "Created batch k" entry per batch of 20, numbered from 1,
    [(N + 19) / 20] of them, the entry of a failed back-link if it failed,
    and the closing success entry. *)
Theorem the_log_counts_the_batches job env target ids (N : Z) :
  fetchTarget env = Ok target →
  useExistingCopies_of target = false →
  numCopies_of target = JInt N →
  (∀ i, 0 ≤ i → POST_entities env i = fulfilled (ids i)) →
  logs (processJob job env start).2 =
    [(info, "Scatter worker starting"); (info, "Fetched target entity")]
    ++ ((λ b, (info, "Created batch " +:+ pretty (b + 1)))
          <$> seqZ 0 ((N + BATCH_SIZE - 1) / BATCH_SIZE))
    ++ (if is_failed (GET_tip env)
        then [(info, "Failed to get tip for original entity")]
        else if truthy (PUT_entity env)
        then [(info, "Failed to add has_copy relationships to original")]
        else [])
    ++ [(success, "Scatter complete")].
Proof.
  intros Htarget Hmode HN Hok.
  rewrite (processJob_generate _ _ target) by done. rewrite HN.
  pose proof (batches_fulfilled_logs
                (λ i, POST (copyBody job env target (mixEntityClass_of target)
                              (JInt N) i))
                (created env (mixEntityClass_of target)) (latency env) "Created"
                (inject_Z N)
                (λ i, {| copy_id := ids i;
                         entity_class := entityClass (mixEntityClass_of target) i |})
                0 []
                (logged [(info, "Scatter worker starting");
                         (info, "Fetched target entity")] start)) as Hlogs.
  rewrite Qceiling_Z in Hlogs.
  destruct (createCopies_whole job env target (mixEntityClass_of target) N ids
              (logged [(info, "Scatter worker starting");
                       (info, "Fetched target entity")] start))
    as [ls Hrun]; [by intros; apply Hok; lia|].
  unfold createCopies in Hrun |- *.
  change (ToNumber (StringToNumber env) (JInt N)) with (Some (inject_Z N)) in *.
  cbv iota in Hrun |- *.
  destruct (batches _ _ _ _ _ _ _ _) as [[copies|err] w1] eqn:Hb; [|discriminate].
  destruct (backLink_runs env target copies w1) as (w2 & -> & Hlogs2 & _).
  simpl. rewrite Hlogs2. unfold backLink_log. simpl in Hlogs. rewrite Hlogs.
  - unfold batch_log. rewrite Z.sub_0_r. simpl.
    rewrite <-!app_assoc. simpl. do 2 f_equal.
  - intros i Hi. apply created_fulfilled, Hok. lia.
Qed.

Lemma the_log_counts_the_batches_witness :
  let props : gmap string jsval := {[ "copy_count" := JInt 45 ]} in
  let env := set_backlink (failed (JObj "{}")) JUndefined (ex_env props) in
  fetchTarget env = Ok (ex_target props) ∧
  useExistingCopies_of (ex_target props) = false ∧
  numCopies_of (ex_target props) = JInt 45 ∧
  (∀ i, 0 ≤ i → POST_entities env i = fulfilled (ex_ids i)) ∧
  logs (processJob ex_job env start).2 =
    [ (info, "Scatter worker starting"); (info, "Fetched target entity");
      (info, "Created batch 1"); (info, "Created batch 2");
      (info, "Created batch 3");
      (info, "Failed to get tip for original entity");
      (success, "Scatter complete") ].
Proof.
  intros props env.
  assert (fetchTarget env = Ok (ex_target props)) as H0 by reflexivity.
  assert (useExistingCopies_of (ex_target props) = false) as H1 by reflexivity.
  assert (numCopies_of (ex_target props) = JInt 45) as H2 by reflexivity.
  assert (∀ i, 0 ≤ i → POST_entities env i = fulfilled (ex_ids i))
    as H3 by (intros i _; reflexivity).
  split_and!; [exact H0|exact H1|exact H2|exact H3|].
  exact (the_log_counts_the_batches ex_job env (ex_target props) ex_ids 45
           H0 H1 H2 H3).
Defined.

(** ** The labels *)

Lemma copyLabel_inj env target i j :
  copyLabel env target i = copyLabel env target j → i = j.
Proof.
  unfold copyLabel. intros H.
  apply (inj (String.append _)) in H.
  apply (inj (String.append _)) in H.
  apply (inj pretty) in H. lia.
Qed.

(** X7.  The copies of one job are told apart by their labels: in any run,
    no two of the copies that the job asks the store to create have the
    same [label]. *)
Theorem copies_have_distinct_labels job env target :
  fetchTarget env = Ok target →
  NoDup ((λ body, body_properties body !! "label")
           <$> posted (calls (processJob job env start).2)).
Proof.
  intros Htarget.
  destruct (processJob_posted job env target Htarget) as (m & _ & _ & ->).
  rewrite <-list_fmap_compose. apply NoDup_fmap_2_strong; [|apply NoDup_seqZ].
  intros i j _ _. unfold compose. rewrite !copyBody_label.
  intros [= H]. by apply copyLabel_inj in H.
Qed.

Lemma copies_have_distinct_labels_witness :
  let props : gmap string jsval :=
    {[ "copy_count" := JInt 3; "label" := JStr "Report" ]} in
  fetchTarget (ex_env props) = Ok (ex_target props) ∧
  (λ body, body_properties body !! "label")
    <$> posted (calls (processJob ex_job (ex_env props) start).2)
  = [Some (JStr "Report - Copy 1"); Some (JStr "Report - Copy 2");
     Some (JStr "Report - Copy 3")] ∧
  NoDup ((λ body, body_properties body !! "label")
           <$> posted (calls (processJob ex_job (ex_env props) start).2)).
Proof.
  intros props.
  assert (fetchTarget (ex_env props) = Ok (ex_target props)) as H0 by reflexivity.
  split; [exact H0|]. split; [vm_compute; reflexivity|].
  exact (copies_have_distinct_labels ex_job (ex_env props) (ex_target props) H0).
Defined.


(** ** Failures of the existing-copies path *)

Lemma fetched_failed env mixEntityClass rels i :
  is_failed (GET_copy env i (peer_at rels i)) = true ↔
  ∃ e, fetched env mixEntityClass rels i = Throw e.
Proof.
  unfold is_failed, fetched. cbv zeta.
  destruct (truthy (error (GET_copy env i (peer_at rels i)))),
           (data (GET_copy env i (peer_at rels i)));
    simpl; split; intros H; try done; try (by eexists); by destruct H.
Qed.

Lemma fetched_not_failed env mixEntityClass rels i :
  is_failed (GET_copy env i (peer_at rels i)) = false ↔
  ∃ v, fetched env mixEntityClass rels i = Ok v.
Proof.
  unfold is_failed, fetched. cbv zeta.
  destruct (truthy (error (GET_copy env i (peer_at rels i)))),
           (data (GET_copy env i (peer_at rels i)));
    simpl; split; intros H; try done; try (by eexists); by destruct H.
Qed.

(** X8.  In existing-copies mode, when the re-fetch of the target fails
    (an error, or no data), the job throws "Failed to fetch target entity
    with relationships: <id>" having sent that one request: it fetches no
    copy, creates nothing and returns no output. *)
Theorem existing_copies_need_the_target job env target w :
  fetchTarget env = Ok target →
  useExistingCopies_of target = true →
  is_failed (GET_target env) = true →
  processJob job env w =
    (Throw ("Failed to fetch target entity with relationships: "
              +:+ target_id target),
     logged [(info, "Scatter worker starting")]
       (sent [GET_entity (target_id target)] w)).
Proof.
  intros Htarget Hmode Hfail.
  rewrite (processJob_existing _ _ target) by done.
  revert Hfail. unfold is_failed, processExistingCopies, mbind, M_bind, send, throw.
  simpl. by destruct (truthy (error (GET_target env))), (data (GET_target env)).
Qed.

Lemma existing_copies_need_the_target_witness :
  fetchTarget (ex_env_failing ex_existing_props) = Ok (ex_target ex_existing_props) ∧
  useExistingCopies_of (ex_target ex_existing_props) = true ∧
  is_failed (GET_target (ex_env_failing ex_existing_props)) = true ∧
  processJob ex_job (ex_env_failing ex_existing_props) start =
    (Throw "Failed to fetch target entity with relationships: T",
     {| calls := [GET_entity "T"];
        logs := [(info, "Scatter worker starting")] |}).
Proof.
  assert (fetchTarget (ex_env_failing ex_existing_props)
          = Ok (ex_target ex_existing_props)) as H0 by reflexivity.
  assert (useExistingCopies_of (ex_target ex_existing_props) = true)
    as H1 by reflexivity.
  assert (is_failed (GET_target (ex_env_failing ex_existing_props)) = true)
    as H2 by reflexivity.
  split_and!; [exact H0|exact H1|exact H2|].
  exact (existing_copies_need_the_target
           ex_job (ex_env_failing ex_existing_props) (ex_target ex_existing_props)
           start H0 H1 H2).
Defined.

(** X9.  In existing-copies mode, if the fetch of any copy fails, the job
    aborts with the error of a failed fetch of the batch of the first
    failure ([f] is its slot), and returns no output; by then it has sent
    the re-fetch of the target and the fetches of the slots of the batches
    up to and including that batch, and no other request. *)
Theorem a_failed_copy_fetch_aborts_the_job job env target e (i : Z) w :
  fetchTarget env = Ok target →
  useExistingCopies_of target = true →
  GET_target env = fulfilled e →
  0 ≤ i < Z.of_nat (length (has_copy_relationships e)) →
  is_failed (GET_copy env i (peer_at (has_copy_relationships e) i)) = true →
  ∃ f j err w',
    0 ≤ f ≤ i ∧
    is_failed (GET_copy env f (peer_at (has_copy_relationships e) f)) = true ∧
    (∀ k, 0 ≤ k < f →
       is_failed (GET_copy env k (peer_at (has_copy_relationships e) k)) = false) ∧
    processJob job env w = (Throw err, w') ∧
    f ≤ j < Z.min ((f / BATCH_SIZE + 1) * BATCH_SIZE)
              (Z.of_nat (length (has_copy_relationships e))) ∧
    fetched env (mixEntityClass_of target) (has_copy_relationships e) j = Throw err ∧
    calls w' = calls w ++
      GET_entity (target_id target) ::
        ((λ k, GET_entity (peer_at (has_copy_relationships e) k))
           <$> seqZ 0 (Z.min ((f / BATCH_SIZE + 1) * BATCH_SIZE)
                         (Z.of_nat (length (has_copy_relationships e))))).
Proof.
  intros Htarget Hmode He Hi Hfail.
  remember (mixEntityClass_of target) as mix eqn:Hmix.
  set (rels := has_copy_relationships e) in *.
  set (n := Z.of_nat (length rels)) in *.
  destruct (first_rejection (fetched env mix rels) 0 (Z.to_nat n))
    as [Hall|(f & e0 & Hf & He0 & Hbefore)].
  { destruct (Hall i) as [v Hv]; [lia|].
    destruct (proj1 (fetched_failed env mix rels i) Hfail) as [err Herr].
    congruence. }
  assert (f ≤ i) as Hfi.
  { destruct (decide (f ≤ i)) as [|Hgt]; [done|].
    destruct (Hbefore i) as [v Hv]; [lia|].
    destruct (proj1 (fetched_failed env mix rels i) Hfail) as [err Herr].
    congruence. }
  destruct (batches_rejected
              (λ k, GET_entity (peer_at rels k)) (fetched env mix rels)
              (latency env) "Fetched" (inject_Z n) f e0 0 []
              (logged [(info, "Using existing copies")]
                 (sent [GET_entity (target_id target)]
                    (logged [(info, "Scatter worker starting")] w))))
    as (j & err & ls & Hrun & Hj & Herr); [rewrite Qceiling_Z; lia|done|done|].
  rewrite Qceiling_Z in Hrun, Hj. rewrite !Z.sub_0_r, !Z.add_0_l in *.
  eexists f, j, err, _. split_and!; try done; try lia.
  - apply (fetched_failed env mix rels). by exists e0.
  - intros k Hk. apply (fetched_not_failed env mix rels), Hbefore. lia.
  - rewrite (processJob_existing _ _ target) by done.
    unfold processExistingCopies, mbind, M_bind, send, log.
    rewrite He, <-Hmix. simpl. fold rels.
    destruct (decide (length rels = 0%nat)) as [Hnil|Hne]; [unfold n in *; lia|].
    fold n. simpl. by rewrite Hrun.
  - simpl. by rewrite <-app_assoc.
Qed.

Lemma a_failed_copy_fetch_aborts_the_job_witness :
  let env := ex_env_missing_copy ex_existing_props in
  let e := ex_entity ex_existing_props in
  fetchTarget env = Ok (ex_target ex_existing_props) ∧
  useExistingCopies_of (ex_target ex_existing_props) = true ∧
  GET_target env = fulfilled e ∧
  0 ≤ 1 < Z.of_nat (length (has_copy_relationships e)) ∧
  is_failed (GET_copy env 1 (peer_at (has_copy_relationships e) 1)) = true ∧
  ∃ err w',
    processJob ex_job env start = (Throw err, w') ∧
    length (calls w') = 4%nat.
Proof.
  intros env e.
  assert (fetchTarget env = Ok (ex_target ex_existing_props)) as H0 by reflexivity.
  assert (useExistingCopies_of (ex_target ex_existing_props) = true)
    as H1 by reflexivity.
  assert (GET_target env = fulfilled e) as H2 by reflexivity.
  assert (0 ≤ 1 < Z.of_nat (length (has_copy_relationships e)))
    as H3 by (vm_compute; split; [discriminate|reflexivity]).
  assert (is_failed (GET_copy env 1 (peer_at (has_copy_relationships e) 1)) = true)
    as H4 by reflexivity.
  split_and!; [exact H0|exact H1|exact H2|exact (proj1 H3)|exact (proj2 H3)
              |exact H4|].
  destruct (a_failed_copy_fetch_aborts_the_job
              ex_job env (ex_target ex_existing_props) e 1 start H0 H1 H2 H3 H4)
    as (f & j & err & w' & Hf & _ & _ & Hrun & _ & _ & Hcalls).
  exists err, w'. split; [exact Hrun|].
  rewrite Hcalls, length_app. change (calls start) with (@nil Call).
  rewrite (Z.div_small f BATCH_SIZE) by (unfold BATCH_SIZE; lia).
  reflexivity.
Defined.


(** * The earlier scatter workers *)

(** ** [Promise.all] and [then] *)



(** ** The batched worker without routing *)










(** ** The sequential workers *)

Lemma sequential_fulfilled request outcome ids indices copies w :
  (∀ i, i ∈ indices → outcome i = Ok (ids i)) →
  sequential request outcome indices copies w =
    (Ok (copies ++ (ids <$> indices)),
     logged ((λ i, (info, "Created copy " +:+ pretty (i + 1) +:+ "/"
                            +:+ pretty NUM_COPIES)) <$> indices)
       (sent (request <$> indices) w)).
Proof.
  revert copies w. induction indices as [|i indices IH]; intros copies w Hok.
  - simpl. rewrite app_nil_r. unfold mret, M_ret. f_equal.
    destruct w. unfold logged, sent. simpl. by rewrite !app_nil_r.
  - simpl. unfold mbind, M_bind, send, lift, log.
    rewrite (Hok i) by (by left). rewrite IH by (intros j Hj; apply Hok; by right).
    rewrite <-app_assoc. simpl. f_equal.
    by rewrite sent_logged, sent_sent, logged_logged.
Qed.

(** The loop stops at the first creation that fails: the failing request is
    the last one sent. *)
Lemma sequential_rejected request outcome ids before f e after copies w :
  (∀ i, i ∈ before → outcome i = Ok (ids i)) →
  outcome f = Throw e →
  sequential request outcome (before ++ f :: after) copies w =
    (Throw e,
     logged ((λ i, (info, "Created copy " +:+ pretty (i + 1) +:+ "/"
                            +:+ pretty NUM_COPIES)) <$> before)
       (sent (request <$> (before ++ [f])) w)).
Proof.
  revert copies w. induction before as [|i before IH]; intros copies w Hok He.
  - simpl. unfold mbind, M_bind, send, lift. rewrite He. f_equal.
    destruct w. unfold logged, sent. simpl. by rewrite !app_nil_r.
  - simpl. unfold mbind, M_bind, send, lift, log.
    rewrite (Hok i) by (by left).
    rewrite IH by (first [done | intros j Hj; apply Hok; by right]).
    f_equal. by rewrite sent_logged, sent_sent, logged_logged.
Qed.

Lemma Plain_created_failed env i :
  is_failed (POST_entities env i) = true →
  Plain.created env i =
    Throw ("Failed to create copy " +:+ pretty (i + 1) +:+ ": "
             +:+ JSON_stringify (NumberToString env) (error (POST_entities env i))).
Proof.
  unfold is_failed, Plain.created. cbv zeta.
  by destruct (truthy (error (POST_entities env i))), (data (POST_entities env i)).
Qed.

Lemma Plain_created_not_failed env i :
  is_failed (POST_entities env i) = false →
  Plain.created env i = Ok (default "" (data (POST_entities env i))).
Proof.
  unfold is_failed, Plain.created. cbv zeta.
  by destruct (truthy (error (POST_entities env i))), (data (POST_entities env i)).
Qed.

(** The indices of the loop, split at one of them. *)
Lemma seqZ_split (f n : Z) :
  0 ≤ f < n → seqZ 0 n = seqZ 0 f ++ f :: seqZ (f + 1) (n - (f + 1)).
Proof.
  intros Hf. replace n with (f + (1 + (n - (f + 1)))) at 1 by lia.
  rewrite seqZ_app by lia. rewrite (seqZ_app _ 1) by lia.
  by rewrite Z.add_0_l.
Qed.

(** What the loop of the sequential workers does, whatever the store
    answers: either every creation succeeds, or it stops at the first one
    that fails, which is then the last request sent. *)
Lemma sequential_runs request env w :
  let ids := λ i, default "" (data (POST_entities env i)) in
  let entry := λ i, (info, "Created copy " +:+ pretty (i + 1) +:+ "/"
                             +:+ pretty NUM_COPIES) in
  ((∀ i, 0 ≤ i < NUM_COPIES → is_failed (POST_entities env i) = false) ∧
   sequential request (Plain.created env) (seqZ 0 NUM_COPIES) [] w =
     (Ok (ids <$> seqZ 0 NUM_COPIES),
      logged (entry <$> seqZ 0 NUM_COPIES)
        (sent (request <$> seqZ 0 NUM_COPIES) w))) ∨
  (∃ f,
     0 ≤ f < NUM_COPIES ∧
     is_failed (POST_entities env f) = true ∧
     (∀ i, 0 ≤ i < f → is_failed (POST_entities env i) = false) ∧
     sequential request (Plain.created env) (seqZ 0 NUM_COPIES) [] w =
       (Throw ("Failed to create copy " +:+ pretty (f + 1) +:+ ": "
                 +:+ JSON_stringify (NumberToString env)
                       (error (POST_entities env f))),
        logged (entry <$> seqZ 0 f) (sent (request <$> seqZ 0 (f + 1)) w))).
Proof.
  intros ids entry.
  assert (∀ i, (∃ v, Plain.created env i = Ok v)
               → is_failed (POST_entities env i) = false) as Hnot.
  { intros i [v Hv]. destruct (is_failed (POST_entities env i)) eqn:Hfail; [|done].
    rewrite Plain_created_failed in Hv by done. discriminate. }
  destruct (first_rejection (Plain.created env) 0 (Z.to_nat NUM_COPIES))
    as [Hall|(f & e0 & Hf & He0 & Hbefore)].
  - left. assert (∀ i, 0 ≤ i < NUM_COPIES
                       → is_failed (POST_entities env i) = false) as Hok.
    { intros i Hi. apply Hnot, Hall. unfold NUM_COPIES in *. lia. }
    split; [exact Hok|].
    rewrite (sequential_fulfilled _ _ ids); [done|].
    intros i Hi. apply elem_of_seqZ in Hi.
    apply Plain_created_not_failed, Hok. lia.
  - right. exists f.
    assert (0 ≤ f < NUM_COPIES) as Hf' by (unfold NUM_COPIES in *; lia).
    assert (is_failed (POST_entities env f) = true) as Hfail.
    { destruct (is_failed (POST_entities env f)) eqn:Hfail; [done|].
      rewrite Plain_created_not_failed in He0 by done. discriminate. }
    split_and!; [lia|lia|exact Hfail|by intros i Hi; apply Hnot, Hbefore|].
    rewrite (seqZ_split f NUM_COPIES) by done.
    rewrite (sequential_rejected _ _ ids _ _
               ("Failed to create copy " +:+ pretty (f + 1) +:+ ": "
                  +:+ JSON_stringify (NumberToString env)
                        (error (POST_entities env f)))).
    + rewrite (seqZ_app 0 f 1) by lia. by rewrite Z.add_0_l.
    + intros i Hi. apply elem_of_seqZ in Hi.
      apply Plain_created_not_failed, Hnot, Hbefore. lia.
    + by apply Plain_created_failed.
Qed.

(** X11.  The sequential worker fails fast: when the creation of copy [f]
    is the first to fail, the job throws "Failed to create copy <f+1>: ..."
    with that request as the last one sent: it has sent the [f + 1]
    creation requests of the indices up to [f], never asks for the copies
    after it, and does not touch the target. *)
Theorem sequential_worker_stops_at_the_first_failure job env target (f : Z) w :
  fetchTarget env = Ok target →
  0 ≤ f < NUM_COPIES →
  is_failed (POST_entities env f) = true →
  (∀ k, 0 ≤ k < f → is_failed (POST_entities env k) = false) →
  ∃ w',
    Sequential.processJob job env w =
      (Throw ("Failed to create copy " +:+ pretty (f + 1) +:+ ": "
                +:+ JSON_stringify (NumberToString env)
                      (error (POST_entities env f))), w') ∧
    calls w' = calls w ++
      (POST <$> (Sequential.copyBody job env target <$> seqZ 0 (f + 1))) ∧
    logs w' = logs w ++
      [(info, "Scatter worker starting"); (info, "Fetched target entity")] ++
      ((λ i, (info, "Created copy " +:+ pretty (i + 1) +:+ "/"
                      +:+ pretty NUM_COPIES)) <$> seqZ 0 f).
Proof.
  intros Htarget Hf Hfail Hbefore.
  unfold Sequential.processJob, mbind, M_bind, log, lift. rewrite Htarget.
  match goal with |- context [sequential ?request _ _ _ ?w0] =>
    destruct (sequential_runs request env w0)
      as [[Hok _]|(f' & Hf' & Hfail' & Hbefore' & ->)]
  end.
  { rewrite Hok in Hfail by done. discriminate. }
  assert (f' = f) as ->.
  { destruct (Z.lt_trichotomy f' f) as [Hlt|[Heq|Hgt]]; [|done|].
    - rewrite Hbefore in Hfail' by lia. discriminate.
    - rewrite Hbefore' in Hfail by lia. discriminate. }
  eexists. split; [done|]. simpl. split.
  - by rewrite <-list_fmap_compose.
  - by rewrite <-!app_assoc.
Qed.

Lemma sequential_worker_stops_at_the_first_failure_witness :
  let env :=
    {| fetchTarget := Ok (ex_target ∅);
       POST_entities := λ i, if i =? 1 then failed (JObj "{}") else fulfilled (ex_ids i);
       GET_tip := fulfilled "tip-1";
       PUT_entity := JUndefined;
       GET_target := fulfilled (ex_entity ∅);
       GET_copy := λ _ peer, fulfilled (ex_copy peer);
       latency := λ _, 0%nat;
       now := λ _, "2025-01-01T00:00:00.000Z";
       StringToNumber := ex_StringToNumber;
       NumberToString := ex_NumberToString |} in
  fetchTarget env = Ok (ex_target ∅) ∧
  0 ≤ 1 < NUM_COPIES ∧
  is_failed (POST_entities env 1) = true ∧
  (∀ k, 0 ≤ k < 1 → is_failed (POST_entities env k) = false) ∧
  ∃ w',
    Sequential.processJob ex_job env start
      = (Throw "Failed to create copy 2: {}", w') ∧
    length (calls w') = 2%nat ∧
    logs w' =
      [ (info, "Scatter worker starting"); (info, "Fetched target entity");
        (info, "Created copy 1/3") ].
Proof.
  intros env.
  assert (fetchTarget env = Ok (ex_target ∅)) as H0 by reflexivity.
  assert (0 ≤ 1 < NUM_COPIES) as H1 by (unfold NUM_COPIES; lia).
  assert (is_failed (POST_entities env 1) = true) as H2 by reflexivity.
  assert (∀ k, 0 ≤ k < 1 → is_failed (POST_entities env k) = false) as H3.
  { intros k Hk. assert (k = 0) as -> by lia. reflexivity. }
  split_and!; [exact H0|exact (proj1 H1)|exact (proj2 H1)|exact H2|exact H3|].
  destruct (sequential_worker_stops_at_the_first_failure
              ex_job env (ex_target ∅) 1 start H0 H1 H2 H3)
    as (w' & Hrun & Hcalls & Hlogs).
  exists w'. split_and!; [exact Hrun| |exact Hlogs].
  rewrite Hcalls. reflexivity.
Defined.

(** X12.  When the store creates the three copies, the sequential worker
    returns their ids in index order, whatever [copy_count] the target has
    and whatever the store answers to the back-link requests.  It has then
    sent the three creation requests, one after the other, each stamped
    [copy_total = 3], then the tip read and, if that gave a tip, the
    conditional update; its log has one entry per copy, the entry of a
    failed back-link if it failed, and the success entry. *)
Theorem sequential_worker_makes_three_copies job env target ids w :
  fetchTarget env = Ok target →
  (∀ i, 0 ≤ i < NUM_COPIES → POST_entities env i = fulfilled (ids i)) →
  ∃ w',
    Sequential.processJob job env w = (Ok [ids 0; ids 1; ids 2], w') ∧
    posted (calls w') =
      posted (calls w) ++ (Sequential.copyBody job env target <$> [0; 1; 2]) ∧
    Forall (λ b, body_properties b !! "copy_total" = Some (JInt 3))
      (Sequential.copyBody job env target <$> [0; 1; 2]) ∧
    calls w' = calls w ++
      (POST <$> (Sequential.copyBody job env target <$> [0; 1; 2])) ++
      GET_entity_tip (target_id target) ::
        match truthy (error (GET_tip env)), data (GET_tip env) with
        | false, Some cid =>
            [PUT (target_id target) cid
               (imap (λ i copyId,
                  {| predicate := "has_copy";
                     peer := copyId;
                     peer_type := target_type target;
                     peer_label := JStr (copyLabel env target (Z.of_nat i)) |})
                  [ids 0; ids 1; ids 2])]
        | _, _ => []
        end ∧
    logs w' = logs w ++
      [ (info, "Scatter worker starting"); (info, "Fetched target entity");
        (info, "Created copy 1/3"); (info, "Created copy 2/3");
        (info, "Created copy 3/3") ] ++
      backLink_log (GET_tip env) (PUT_entity env) ++
      [(success, "Scatter complete")].
Proof.
  intros Htarget Hok.
  assert (Forall (λ b, body_properties b !! "copy_total" = Some (JInt 3))
            (Sequential.copyBody job env target <$> [0; 1; 2])) as Hbodies.
  { apply Forall_fmap, Forall_forall. intros i _. simpl. by simplify_map_eq. }
  unfold Sequential.processJob, mbind, M_bind, log, lift. rewrite Htarget.
  rewrite (sequential_fulfilled _ _ ids).
  2:{ intros i Hi. apply elem_of_seqZ in Hi.
      unfold Plain.created. cbv zeta. by rewrite Hok by lia. }
  change (seqZ 0 NUM_COPIES) with [0; 1; 2]. simpl.
  unfold Plain.backLink, backLink_log, is_failed, mbind, M_bind, send, log.
  simpl.
  destruct (truthy (error (GET_tip env))), (data (GET_tip env)) as [cid|]; simpl;
    try destruct (truthy (PUT_entity env)); simpl;
    (eexists; split; [reflexivity|]; simpl; split_and!;
     [ rewrite <-?app_assoc, !posted_app; simpl; by rewrite ?app_nil_r
     | exact Hbodies
     | by rewrite <-?app_assoc
     | by rewrite <-?app_assoc ]).
Qed.

Lemma sequential_worker_makes_three_copies_witness :
  let env := set_backlink (failed (JObj "{}")) JUndefined
               (ex_env {[ "copy_count" := JInt 7 ]}) in
  fetchTarget env = Ok (ex_target {[ "copy_count" := JInt 7 ]}) ∧
  (∀ i, 0 ≤ i < NUM_COPIES → POST_entities env i = fulfilled (ex_ids i)) ∧
  ∃ w',
    Sequential.processJob ex_job env start = (Ok ["c0"; "c1"; "c2"], w') ∧
    length (calls w') = 4%nat ∧
    logs w' =
      [ (info, "Scatter worker starting"); (info, "Fetched target entity");
        (info, "Created copy 1/3"); (info, "Created copy 2/3");
        (info, "Created copy 3/3");
        (info, "Failed to get tip for original entity");
        (success, "Scatter complete") ].
Proof.
  intros env.
  assert (fetchTarget env = Ok (ex_target {[ "copy_count" := JInt 7 ]}))
    as H0 by reflexivity.
  assert (∀ i, 0 ≤ i < NUM_COPIES → POST_entities env i = fulfilled (ex_ids i))
    as H1 by (intros i _; reflexivity).
  split_and!; [exact H0|exact H1|].
  destruct (sequential_worker_makes_three_copies
              ex_job env (ex_target {[ "copy_count" := JInt 7 ]}) ex_ids start
              H0 H1)
    as (w' & Hrun & _ & _ & Hcalls & Hlogs).
  exists w'. split_and!; [exact Hrun| |exact Hlogs].
  rewrite Hcalls. reflexivity.
Defined.



(** * The stamp workers *)

(** What a stamping job does, whatever the store answers: it reads the tip;
    without a tip it throws, having written nothing; with a tip it writes
    the properties under that tip, and throws if the update fails. *)
Lemma stamp_runs properties env target w :
  Stamp.fetchTarget env = Ok target →
  Stamp.stamp properties env w =
    let opening := [(info, "Stamp worker starting"); (info, "Fetched target entity")] in
    let id := Stamp.target_id target in
    match truthy (error (Stamp.GET_tip env)), data (Stamp.GET_tip env) with
    | false, Some cid =>
        let cs := Stamp.calls w ++
                    [Stamp.GET_entity_tip id; Stamp.PUT id cid (properties target)] in
        if truthy (Stamp.PUT_entity env)
        then (Throw ("Failed to stamp entity: "
                       +:+ JSON_stringify (Stamp.NumberToString env)
                             (Stamp.PUT_entity env)),
              {| Stamp.calls := cs; Stamp.logs := Stamp.logs w ++ opening |})
        else (Ok [id],
              {| Stamp.calls := cs;
                 Stamp.logs := Stamp.logs w ++ opening ++
                   [(info, "Entity stamped successfully");
                    (success, "Job completed")] |})
    | _, _ =>
        (Throw ("Failed to get entity tip: " +:+ id),
         {| Stamp.calls := Stamp.calls w ++ [Stamp.GET_entity_tip id];
            Stamp.logs := Stamp.logs w ++ opening |})
    end.
Proof.
  intros Htarget. unfold Stamp.stamp, mbind, Stamp.M_bind, Stamp.log, Stamp.lift,
    Stamp.send, Stamp.throw.
  rewrite Htarget. simpl.
  destruct (truthy (error (Stamp.GET_tip env))),
           (data (Stamp.GET_tip env)) as [cid|]; simpl;
    try (by rewrite <-!app_assoc).
  destruct (truthy (Stamp.PUT_entity env)); simpl;
    by rewrite <-!app_assoc.
Qed.

(** X14.  The stamp worker writes under the tip or not at all, and reports
    success only for an update that went through.  If the tip read fails (an
    error, or no data) the job throws "Failed to get entity tip: <id>"
    having sent that one request.  Otherwise it sends one conditional
    update, which expects the tip just read and carries the target's
    properties with [stamped_at], [stamped_by] and [stamp_message] set,
    every other property as the target has it; if that update fails the job
    throws "Failed to stamp entity: <error>" and logs no success; if not, it
    returns the target's id as its one output. *)
Theorem stamp_worker_writes_under_the_tip_or_fails job env target w :
  Stamp.fetchTarget env = Ok target →
  let run := Stamp.processJob job env w in
  let id := Stamp.target_id target in
  let opening := [(info, "Stamp worker starting"); (info, "Fetched target entity")] in
  (is_failed (Stamp.GET_tip env) = true →
   run = (Throw ("Failed to get entity tip: " +:+ id),
          {| Stamp.calls := Stamp.calls w ++ [Stamp.GET_entity_tip id];
             Stamp.logs := Stamp.logs w ++ opening |})) ∧
  (∀ cid,
     truthy (error (Stamp.GET_tip env)) = false →
     data (Stamp.GET_tip env) = Some cid →
     ∃ properties,
       Stamp.calls run.2 =
         Stamp.calls w ++ [Stamp.GET_entity_tip id; Stamp.PUT id cid properties] ∧
       properties !! "stamped_at" = Some (Stamp.Atom (JStr (Stamp.now env))) ∧
       properties !! "stamped_by" = Some (Stamp.Atom (JStr (Stamp.agentId job))) ∧
       properties !! "stamp_message"
         = Some (Stamp.Atom (JStr "This worker was here!")) ∧
       (∀ key, key ∉ ["stamped_at"; "stamped_by"; "stamp_message"] →
          properties !! key = Stamp.target_properties target !! key) ∧
       (truthy (Stamp.PUT_entity env) = true →
        run.1 = Throw ("Failed to stamp entity: "
                         +:+ JSON_stringify (Stamp.NumberToString env)
                               (Stamp.PUT_entity env)) ∧
        Stamp.logs run.2 = Stamp.logs w ++ opening) ∧
       (truthy (Stamp.PUT_entity env) = false →
        run.1 = Ok [id] ∧
        Stamp.logs run.2 = Stamp.logs w ++ opening ++
          [(info, "Entity stamped successfully"); (success, "Job completed")])).
Proof.
  intros Htarget. cbv zeta. unfold Stamp.processJob.
  rewrite (stamp_runs _ _ target) by done. cbv zeta. split.
  - unfold is_failed.
    by destruct (truthy (error (Stamp.GET_tip env))),
                (data (Stamp.GET_tip env)).
  - intros cid -> ->. exists (Stamp.stamped job env target).
    split_and!.
    + by destruct (truthy (Stamp.PUT_entity env)).
    + unfold Stamp.stamped. by simplify_map_eq.
    + unfold Stamp.stamped. by simplify_map_eq.
    + unfold Stamp.stamped. by simplify_map_eq.
    + intros key Hkey. rewrite !not_elem_of_cons in Hkey.
      destruct Hkey as (? & ? & ? & _).
      unfold Stamp.stamped. by simplify_map_eq.
    + by intros ->.
    + by intros ->.
Qed.

Lemma stamp_worker_writes_under_the_tip_or_fails_witness :
  let props : gmap string Stamp.json :=
    {[ "label" := Stamp.Atom (JStr "Report");
       "stamped_by" := Stamp.Atom (JStr "someone else") ]} in
  let env := ex_stamp_env props JUndefined in
  Stamp.fetchTarget env = Ok (ex_stamp_target props) ∧
  ∃ properties,
    Stamp.calls (Stamp.processJob (ex_stamp_job "stamper") env Stamp.start).2 =
      [Stamp.GET_entity_tip "E"; Stamp.PUT "E" "tip-1" properties] ∧
    properties !! "stamped_by" = Some (Stamp.Atom (JStr "stamper")) ∧
    properties !! "label" = Some (Stamp.Atom (JStr "Report")) ∧
    (Stamp.processJob (ex_stamp_job "stamper") env Stamp.start).1 = Ok ["E"].
Proof.
  intros props env.
  assert (Stamp.fetchTarget env = Ok (ex_stamp_target props)) as H0 by reflexivity.
  split; [exact H0|].
  destruct (stamp_worker_writes_under_the_tip_or_fails
              (ex_stamp_job "stamper") env (ex_stamp_target props) Stamp.start H0)
    as [_ Hrun].
  destruct (Hrun "tip-1" eq_refl eq_refl)
    as (properties & Hcalls & _ & Hby & _ & Hkeep & _ & Hok).
  assert ("label" ∉ ["stamped_at"; "stamped_by"; "stamp_message"]) as Hlabel
    by (apply (bool_decide_unpack _); vm_compute; exact I).
  exists properties.
  split_and!; [exact Hcalls|exact Hby|exact (Hkeep _ Hlabel)|exact (proj1 (Hok eq_refl))].
Defined.

(** X15.  The first version keeps one stamp only: what a job writes over
    an entity that an earlier job has stamped is what it writes over the
    entity as it was before, so nothing of the earlier stamp is left. *)
Theorem a_second_stamp_replaces_the_first job1 env1 job2 env2 target :
  Stamp.stamped job2 env2 (Stamp.updated (Stamp.stamped job1 env1 target) target)
    = Stamp.stamped job2 env2 target.
Proof.
  unfold Stamp.stamped, Stamp.updated. simpl.
  apply map_eq. intros key.
  destruct (decide (key = "stamp_message")) as [->|?]; [by simplify_map_eq|].
  destruct (decide (key = "stamped_by")) as [->|?]; [by simplify_map_eq|].
  destruct (decide (key = "stamped_at")) as [->|?]; by simplify_map_eq.
Qed.

(** ** The accumulating version *)

(** The stamps of the entity once the update is applied: those it had, and
    the new one. *)
Lemma existingStamps_updated job env target :
  StampChain.existingStamps
    (Stamp.updated (StampChain.stamped job env target) target)
  = StampChain.existingStamps target
      ++ [StampChain.newStamp job env (StampChain.existingStamps target)].
Proof.
  unfold StampChain.existingStamps at 1, Stamp.updated, StampChain.stamped. simpl.
  by simplify_map_eq.
Qed.

(** X16.  The accumulating stamp worker appends: the update it sends, under
    the tip just read, carries the stamps that the target had, in their
    order, followed by one new stamp, whose [stamp_number] is one more than
    the number of stamps before it, and a [stamp_count] equal to the length
    of that array; every other property is as the target has it.  A
    [stamps] property that is not an array counts as no stamp.  The job
    returns the target's id if the update went through, and throws if
    not. *)
Theorem stamps_accumulate job env target cid w :
  Stamp.fetchTarget env = Ok target →
  truthy (error (Stamp.GET_tip env)) = false →
  data (Stamp.GET_tip env) = Some cid →
  let run := StampChain.processJob job env w in
  let existing := StampChain.existingStamps target in
  ∃ properties stamp,
    Stamp.calls run.2 =
      Stamp.calls w ++
      [Stamp.GET_entity_tip (Stamp.target_id target);
       Stamp.PUT (Stamp.target_id target) cid properties] ∧
    properties !! "stamps" = Some (Stamp.Arr (existing ++ [stamp])) ∧
    properties !! "stamp_count"
      = Some (Stamp.Atom (JInt (Z.of_nat (length (existing ++ [stamp]))))) ∧
    Stamp.field "stamp_number" stamp
      = Some (Stamp.Atom (JInt (Z.of_nat (length existing) + 1))) ∧
    Stamp.field "stamped_by" stamp = Some (Stamp.Atom (JStr (Stamp.agentId job))) ∧
    Stamp.field "job_id" stamp = Some (Stamp.Atom (JStr (Stamp.job_id job))) ∧
    (∀ key, key ∉ ["stamps"; "stamp_count"] →
       properties !! key = Stamp.target_properties target !! key) ∧
    (∀ items, Stamp.target_properties target !! "stamps" = Some (Stamp.Arr items) →
       existing = items) ∧
    ((∀ items, Stamp.target_properties target !! "stamps" ≠ Some (Stamp.Arr items)) →
       existing = []) ∧
    run.1 = (if truthy (Stamp.PUT_entity env)
             then Throw ("Failed to stamp entity: "
                           +:+ JSON_stringify (Stamp.NumberToString env)
                                 (Stamp.PUT_entity env))
             else Ok [Stamp.target_id target]).
Proof.
  intros Htarget Herr Hdata. cbv zeta. unfold StampChain.processJob.
  rewrite (stamp_runs _ _ target) by done. cbv zeta. rewrite Herr, Hdata.
  exists (StampChain.stamped job env target),
         (StampChain.newStamp job env (StampChain.existingStamps target)).
  split_and!.
  - by destruct (truthy (Stamp.PUT_entity env)).
  - unfold StampChain.stamped. by simplify_map_eq.
  - unfold StampChain.stamped. by simplify_map_eq.
  - reflexivity.
  - reflexivity.
  - reflexivity.
  - intros key Hkey. rewrite !not_elem_of_cons in Hkey.
    destruct Hkey as (? & ? & _).
    unfold StampChain.stamped. by simplify_map_eq.
  - intros items Hitems. unfold StampChain.existingStamps. by rewrite Hitems.
  - intros Hnone. unfold StampChain.existingStamps.
    destruct (Stamp.target_properties target !! "stamps") as [[v|items|fields]|]
      eqn:Hstamps; try done.
    by destruct (Hnone items).
  - by destruct (truthy (Stamp.PUT_entity env)).
Qed.

Lemma stamps_accumulate_witness :
  let first :=
    Stamp.Rec [("stamp_number", Stamp.Atom (JInt 1));
               ("stamped_by", Stamp.Atom (JStr "first"))] in
  let props : gmap string Stamp.json := {[ "stamps" := Stamp.Arr [first] ]} in
  let env := ex_stamp_env props JUndefined in
  Stamp.fetchTarget env = Ok (ex_stamp_target props) ∧
  truthy (error (Stamp.GET_tip env)) = false ∧
  data (Stamp.GET_tip env) = Some "tip-1" ∧
  ∃ properties stamp,
    Stamp.calls (StampChain.processJob (ex_stamp_job "second") env Stamp.start).2 =
      [Stamp.GET_entity_tip "E"; Stamp.PUT "E" "tip-1" properties] ∧
    properties !! "stamps" = Some (Stamp.Arr [first; stamp]) ∧
    properties !! "stamp_count" = Some (Stamp.Atom (JInt 2)) ∧
    Stamp.field "stamp_number" stamp = Some (Stamp.Atom (JInt 2)) ∧
    (StampChain.processJob (ex_stamp_job "second") env Stamp.start).1 = Ok ["E"].
Proof.
  intros first props env.
  assert (Stamp.fetchTarget env = Ok (ex_stamp_target props)) as H0 by reflexivity.
  assert (truthy (error (Stamp.GET_tip env)) = false) as H1 by reflexivity.
  assert (data (Stamp.GET_tip env) = Some "tip-1") as H2 by reflexivity.
  split_and!; [exact H0|exact H1|exact H2|].
  destruct (stamps_accumulate (ex_stamp_job "second") env (ex_stamp_target props)
              "tip-1" Stamp.start H0 H1 H2)
    as (properties & stamp & Hcalls & Hstamps & Hcount & Hnumber & _ & _ & _
        & _ & _ & Hrun).
  exists properties, stamp.
  split_and!; [exact Hcalls|exact Hstamps|exact Hcount|exact Hnumber|exact Hrun].
Defined.

Lemma chain_stamps steps target :
  ∃ new,
    StampChain.existingStamps (StampChain.chain steps target)
      = StampChain.existingStamps target ++ new ∧
    Stamp.field "stamp_number" <$> new =
      (λ i, Some (Stamp.Atom (JInt i)))
        <$> seqZ (Z.of_nat (length (StampChain.existingStamps target)) + 1)
              (Z.of_nat (length steps)) ∧
    Stamp.field "stamped_by" <$> new =
      (λ step, Some (Stamp.Atom (JStr (Stamp.agentId step.1)))) <$> steps.
Proof.
  revert target. induction steps as [|[job env] steps IH]; intros target.
  - exists []. simpl. by rewrite app_nil_r.
  - simpl.
    destruct (IH (Stamp.updated (StampChain.stamped job env target) target))
      as (new & Hnew & Hnumbers & Hby).
    rewrite existingStamps_updated in Hnew, Hnumbers.
    exists (StampChain.newStamp job env (StampChain.existingStamps target) :: new).
    split_and!.
    + by rewrite Hnew, <-app_assoc.
    + rewrite fmap_cons, Hnumbers, length_app. simpl.
      replace (Z.of_nat (S (length steps))) with (1 + Z.of_nat (length steps))
        by lia.
      rewrite (seqZ_app _ 1) by lia. simpl. do 3 f_equal. lia.
    + by rewrite fmap_cons, Hby.
Qed.

Lemma chain_stamp_count job env steps target :
  Stamp.target_properties (StampChain.chain ((job, env) :: steps) target)
    !! "stamp_count" =
  Some (Stamp.Atom
          (JInt (Z.of_nat (length (StampChain.existingStamps
                                     (StampChain.chain ((job, env) :: steps) target)))))).
Proof.
  revert job env target. induction steps as [|[job' env'] steps IH];
    intros job env target.
  - simpl. rewrite existingStamps_updated.
    unfold StampChain.stamped. by simplify_map_eq.
  - change (StampChain.chain ((job, env) :: (job', env') :: steps) target)
      with (StampChain.chain ((job', env') :: steps)
              (Stamp.updated (StampChain.stamped job env target) target)).
    apply IH.
Qed.

(** X17.  Stamps are numbered in the order of the jobs.  Along a chain of
    stamping jobs on one entity, each finding the entity as the job before
    it wrote it, the stamps that the entity had at first stay in front, in
    their order; the jobs of the chain add one stamp each, in the order of
    the jobs, each naming its job's agent, and numbered onwards from the
    number of stamps at first: 1, ..., k on an entity without stamps; and
    [stamp_count] ends as the number of stamps. *)
Theorem a_chain_numbers_its_stamps steps target :
  let before := StampChain.existingStamps target in
  let after := StampChain.existingStamps (StampChain.chain steps target) in
  length after = (length before + length steps)%nat ∧
  take (length before) after = before ∧
  Stamp.field "stamp_number" <$> drop (length before) after =
    (λ i, Some (Stamp.Atom (JInt i)))
      <$> seqZ (Z.of_nat (length before) + 1) (Z.of_nat (length steps)) ∧
  Stamp.field "stamped_by" <$> drop (length before) after =
    (λ step, Some (Stamp.Atom (JStr (Stamp.agentId step.1)))) <$> steps ∧
  (steps ≠ [] →
   Stamp.target_properties (StampChain.chain steps target) !! "stamp_count"
     = Some (Stamp.Atom (JInt (Z.of_nat (length before + length steps))))).
Proof.
  cbv zeta. destruct (chain_stamps steps target) as (new & Hnew & Hnumbers & Hby).
  assert (length new = length steps) as Hlen.
  { apply (f_equal length) in Hby. by rewrite !length_fmap in Hby. }
  rewrite Hnew. split_and!.
  - by rewrite length_app, Hlen.
  - by rewrite take_app_length.
  - by rewrite drop_app_length.
  - by rewrite drop_app_length.
  - intros Hsteps. destruct steps as [|[job env] steps]; [done|].
    rewrite chain_stamp_count, Hnew, length_app, Hlen. done.
Qed.

(** Three jobs on an entity without stamps. *)
Example scenario_stamp_chain :
  let steps :=
    [ (ex_stamp_job "a", ex_stamp_env ∅ JUndefined);
      (ex_stamp_job "b", ex_stamp_env ∅ JUndefined);
      (ex_stamp_job "c", ex_stamp_env ∅ JUndefined) ] in
  let entity := StampChain.chain steps (ex_stamp_target ∅) in
  Stamp.field "stamp_number" <$> StampChain.existingStamps entity
    = [Some (Stamp.Atom (JInt 1)); Some (Stamp.Atom (JInt 2));
       Some (Stamp.Atom (JInt 3))] ∧
  Stamp.field "stamp_message" <$> StampChain.existingStamps entity
    = [Some (Stamp.Atom (JStr "Stamp #1 - This worker was here!"));
       Some (Stamp.Atom (JStr "Stamp #2 - This worker was here!"));
       Some (Stamp.Atom (JStr "Stamp #3 - This worker was here!"))] ∧
  Stamp.target_properties entity !! "stamp_count" = Some (Stamp.Atom (JInt 3)).
Proof. split_and!; vm_compute; reflexivity. Qed.
